(** * gopanosapi: the User-ID batching engine ([UID] in apicommon.go)

    A shallow embedding of the [UID] type of package [gopanosapi]: the ledger
    of pending login/logout transactions and group memberships, the change
    counter with its threshold trigger, the periodic ticker goroutine, the
    flusher goroutine and [Close].

    The ledger operations all run under [uid.dataLock], so each of them is one
    atomic transition of the shared state.  The two goroutines and [Close] are
    cut into their atomic pieces (one piece per critical section or channel
    operation) and interleaved by an explicit schedule of events. *)

From stdpp Require Import base gmap strings list fin_maps.

(** ** Go's [int]

    [cumChanges] is a Go [int]; it is modelled at its 64-bit width as an
    integer of [Z] with the two's-complement wrap-around of [+=] written out. *)

Definition int_min : Z := (- 2 ^ 63)%Z.
Definition int_max : Z := (2 ^ 63 - 1)%Z.

Definition int_range (z : Z) : Prop := (int_min ≤ z ≤ int_max)%Z.

Definition wrap_int (z : Z) : Z := ((z + 2 ^ 63) `mod` 2 ^ 64 - 2 ^ 63)%Z.

(** [a + b] on [int]. *)
Definition int_add (a b : Z) : Z := wrap_int (a + b).

(** ** Constants *)

Definition UIDVERSION : string := "2.0".
Definition UIDTYPE : string := "update".
Definition MAXCHANGES : Z := 100.

(** ** The XML envelope structs

    The [XMLName] fields carry no data (they only fix the element name for
    [encoding/xml]) and are left out. *)

Module groupMemberEntry.
Record t := mk { Name : string }.
End groupMemberEntry.

Module groupEntry.
Record t := mk { Name : string; Members : list groupMemberEntry.t }.
End groupEntry.

Module loginEntry.
Record t := mk { Name : string; Ip : string; Timeout : string }.
End loginEntry.

Module logoutEntry.
Record t := mk { Name : string; Ip : string }.
End logoutEntry.

Module payloadElement.
Record t := mk {
  Version : string;
  Type_ : string;
  LoginEntries : list loginEntry.t;
  LogoutEntries : list logoutEntry.t;
  GroupEntries : list groupEntry.t
}.
End payloadElement.

Module userPendingEntries.
Record t := mk { isLogin : bool; username : string; timeout : string }.
End userPendingEntries.

(** ** Goroutine control points *)

(** [flushData]: the places of its loop body between which other goroutines
    can run. *)
Inductive flushData_pc :=
  | FSelect    (* at [select], about to poll [flusherQuit] *)
  | FWait      (* took [default]; about to lock [flusher.L] and call [Wait] *)
  | FParked    (* inside [flusher.Wait()] *)
  | FSubmit    (* drained under [dataLock]; about to marshal and call [device.Uid] *)
  | FReturned. (* left through the [flusherQuit] case; [wg.Done] has run *)

Inductive tickRcvr_pc :=
  | TSelect    (* at [select] over [ticking.C] and [tickerQuit] *)
  | TReturned.

(** A call of [Close] in progress. *)
Inductive Close_pc :=
  | CEntry     (* no call in progress / at the [isRunning] test *)
  | CSignal    (* [flusherQuit] closed; about to signal [flusher] *)
  | CTickerQuit (* about to close [tickerQuit] *)
  | CWait.     (* at [wg.Wait()] *)

(** ** [sync.Cond]

    Only [flushData] ever waits on [uid.flusher], so the condition variable's
    notify list is either empty or holds that one goroutine.  [Signal] wakes a
    goroutine on the list if there is one and otherwise does nothing; [Wait]
    returns only after such a wake-up.  [signals] counts the calls of
    [Signal]; it is an observation, no code reads it. *)
Module Cond.
Record t := mk { waiting : bool; signals : nat }.

Definition Signal (c : t) : t := mk false (S (signals c)).

(** The first half of [Wait]: the caller joins the notify list. *)
Definition enqueue (c : t) : t := mk true (signals c).
End Cond.

(** ** The [UID] struct

    [device] is seen through what the engine hands to it: the list of
    envelopes marshalled and passed to [device.Uid], oldest first.  [wg] is
    the [WaitGroup] counter, [ticking] tells whether the ticker is running,
    and a quit channel is [true] once closed.  [dataLock] does not appear:
    every transition below is one critical section of it.  The last three
    fields are the control points of the two goroutines and of [Close]. *)
Record UID := mkUID {
  payloadE : payloadElement.t;
  ip2uTransactions : gmap string userPendingEntries.t;
  groups : gmap string (gset string);
  device : list payloadElement.t;
  flusher : Cond.t;
  wg : nat;
  ticking : bool;
  flusherQuit : bool;
  tickerQuit : bool;
  cumChanges : Z;
  isRunning : bool;
  flushData_at : flushData_pc;
  tickRcvr_at : tickRcvr_pc;
  Close_at : Close_pc
}.

Definition set_payloadE (v : payloadElement.t) (u : UID) : UID :=
  mkUID v (ip2uTransactions u) (groups u) (device u) (flusher u) (wg u)
        (ticking u) (flusherQuit u) (tickerQuit u) (cumChanges u) (isRunning u)
        (flushData_at u) (tickRcvr_at u) (Close_at u).
Definition set_ip2uTransactions (v : gmap string userPendingEntries.t) (u : UID) : UID :=
  mkUID (payloadE u) v (groups u) (device u) (flusher u) (wg u)
        (ticking u) (flusherQuit u) (tickerQuit u) (cumChanges u) (isRunning u)
        (flushData_at u) (tickRcvr_at u) (Close_at u).
Definition set_groups (v : gmap string (gset string)) (u : UID) : UID :=
  mkUID (payloadE u) (ip2uTransactions u) v (device u) (flusher u) (wg u)
        (ticking u) (flusherQuit u) (tickerQuit u) (cumChanges u) (isRunning u)
        (flushData_at u) (tickRcvr_at u) (Close_at u).
Definition set_device (v : list payloadElement.t) (u : UID) : UID :=
  mkUID (payloadE u) (ip2uTransactions u) (groups u) v (flusher u) (wg u)
        (ticking u) (flusherQuit u) (tickerQuit u) (cumChanges u) (isRunning u)
        (flushData_at u) (tickRcvr_at u) (Close_at u).
Definition set_flusher (v : Cond.t) (u : UID) : UID :=
  mkUID (payloadE u) (ip2uTransactions u) (groups u) (device u) v (wg u)
        (ticking u) (flusherQuit u) (tickerQuit u) (cumChanges u) (isRunning u)
        (flushData_at u) (tickRcvr_at u) (Close_at u).
Definition set_wg (v : nat) (u : UID) : UID :=
  mkUID (payloadE u) (ip2uTransactions u) (groups u) (device u) (flusher u) v
        (ticking u) (flusherQuit u) (tickerQuit u) (cumChanges u) (isRunning u)
        (flushData_at u) (tickRcvr_at u) (Close_at u).
Definition set_ticking (v : bool) (u : UID) : UID :=
  mkUID (payloadE u) (ip2uTransactions u) (groups u) (device u) (flusher u) (wg u)
        v (flusherQuit u) (tickerQuit u) (cumChanges u) (isRunning u)
        (flushData_at u) (tickRcvr_at u) (Close_at u).
Definition set_flusherQuit (v : bool) (u : UID) : UID :=
  mkUID (payloadE u) (ip2uTransactions u) (groups u) (device u) (flusher u) (wg u)
        (ticking u) v (tickerQuit u) (cumChanges u) (isRunning u)
        (flushData_at u) (tickRcvr_at u) (Close_at u).
Definition set_tickerQuit (v : bool) (u : UID) : UID :=
  mkUID (payloadE u) (ip2uTransactions u) (groups u) (device u) (flusher u) (wg u)
        (ticking u) (flusherQuit u) v (cumChanges u) (isRunning u)
        (flushData_at u) (tickRcvr_at u) (Close_at u).
Definition set_cumChanges (v : Z) (u : UID) : UID :=
  mkUID (payloadE u) (ip2uTransactions u) (groups u) (device u) (flusher u) (wg u)
        (ticking u) (flusherQuit u) (tickerQuit u) v (isRunning u)
        (flushData_at u) (tickRcvr_at u) (Close_at u).
Definition set_isRunning (v : bool) (u : UID) : UID :=
  mkUID (payloadE u) (ip2uTransactions u) (groups u) (device u) (flusher u) (wg u)
        (ticking u) (flusherQuit u) (tickerQuit u) (cumChanges u) v
        (flushData_at u) (tickRcvr_at u) (Close_at u).
Definition set_flushData_at (v : flushData_pc) (u : UID) : UID :=
  mkUID (payloadE u) (ip2uTransactions u) (groups u) (device u) (flusher u) (wg u)
        (ticking u) (flusherQuit u) (tickerQuit u) (cumChanges u) (isRunning u)
        v (tickRcvr_at u) (Close_at u).
Definition set_tickRcvr_at (v : tickRcvr_pc) (u : UID) : UID :=
  mkUID (payloadE u) (ip2uTransactions u) (groups u) (device u) (flusher u) (wg u)
        (ticking u) (flusherQuit u) (tickerQuit u) (cumChanges u) (isRunning u)
        (flushData_at u) v (Close_at u).
Definition set_Close_at (v : Close_pc) (u : UID) : UID :=
  mkUID (payloadE u) (ip2uTransactions u) (groups u) (device u) (flusher u) (wg u)
        (ticking u) (flusherQuit u) (tickerQuit u) (cumChanges u) (isRunning u)
        (flushData_at u) (tickRcvr_at u) v.

(** [uid.flusher.L.Lock(); uid.flusher.Signal(); uid.flusher.L.Unlock()] *)
Definition signalFlusher (u : UID) : UID :=
  set_flusher (Cond.Signal (flusher u)) u.

(** ** The ledger operations *)

Definition incChange (increment : Z) (u : UID) : UID :=
  let u := set_cumChanges (int_add (cumChanges u) increment) u in
  if bool_decide (cumChanges u = MAXCHANGES) then signalFlusher u else u.

Definition AddLogin (username ipaddr timeout : string) (u : UID) : UID :=
  match ip2uTransactions u !! ipaddr with
  | Some _ =>
      incChange (-1) (set_ip2uTransactions (delete ipaddr (ip2uTransactions u)) u)
  | None =>
      incChange 1
        (set_ip2uTransactions
           (<[ipaddr := userPendingEntries.mk true username timeout]>
              (ip2uTransactions u)) u)
  end.

Definition AddLogout (username ipaddr : string) (u : UID) : UID :=
  match ip2uTransactions u !! ipaddr with
  | Some _ =>
      incChange (-1) (set_ip2uTransactions (delete ipaddr (ip2uTransactions u)) u)
  | None =>
      incChange 1
        (set_ip2uTransactions
           (<[ipaddr := userPendingEntries.mk false username ""]>
              (ip2uTransactions u)) u)
  end.

Definition AddGroupMember (group member : string) (u : UID) : UID :=
  match groups u !! group with
  | Some groupId =>
      if bool_decide (member ∈ groupId) then u
      else incChange 1 (set_groups (<[group := {[member]} ∪ groupId]> (groups u)) u)
  | None =>
      incChange 1 (set_groups (<[group := {[member]}]> (groups u)) u)
  end.

Definition RemoveGroupMember (group member : string) (u : UID) : UID :=
  match groups u !! group with
  | Some groupId =>
      if bool_decide (member ∈ groupId)
      then incChange 1 (set_groups (<[group := groupId ∖ {[member]}]> (groups u)) u)
      else u
  | None => u
  end.

(** ** Garbage collection of empty groups

    [for gName, gMembers := range uid.groups] visits every entry once, in an
    order Go leaves unspecified; [map_to_list] stands for one such order.
    Deleting the entry under the cursor is allowed in Go and does not disturb
    the rest of the iteration. *)
Definition gGarbage (u : UID) : UID :=
  set_groups
    (foldl (λ gs '(gName, gMembers),
              if bool_decide (size (gMembers : gset string) = 0)
              then delete gName gs else gs)
           (groups u) (map_to_list (groups u)))
    u.

(** ** The flusher

    The two [range] loops of [flushData], each appending to a slice. *)
Definition prepareEntries (m : gmap string userPendingEntries.t)
    : list loginEntry.t * list logoutEntry.t :=
  foldl (λ '(logins, logouts) '(ipaddr, uidMap),
           if userPendingEntries.isLogin uidMap
           then (logins ++ [loginEntry.mk (userPendingEntries.username uidMap)
                                          ipaddr
                                          (userPendingEntries.timeout uidMap)],
                 logouts)
           else (logins,
                 logouts ++ [logoutEntry.mk (userPendingEntries.username uidMap)
                                            ipaddr]))
        ([], []) (map_to_list m).

Definition prepareMembers (gMembers : gset string) : list groupMemberEntry.t :=
  foldl (λ members mName, members ++ [groupMemberEntry.mk mName])
        [] (elements gMembers).

Definition prepareGroups (gs : gmap string (gset string)) : list groupEntry.t :=
  foldl (λ entries '(gName, gMembers),
           entries ++ [groupEntry.mk gName (prepareMembers gMembers)])
        [] (map_to_list gs).

(** The critical section of [flushData]: from [uid.dataLock.Lock()] to
    [uid.dataLock.Unlock()]. *)
Definition drain (u : UID) : UID :=
  let entries := prepareEntries (ip2uTransactions u) in
  let u :=
    set_payloadE
      (payloadElement.mk (payloadElement.Version (payloadE u))
                         (payloadElement.Type_ (payloadE u))
                         entries.1 entries.2 (prepareGroups (groups u)))
      u in
  let u := gGarbage u in
  let u := set_ip2uTransactions ∅ u in
  set_cumChanges 0 u.

(** [message, _ := xml.Marshal(&uid.payloadE); uid.device.Uid(string(message))]:
    the envelope goes to the device; the reply and the error are dropped. *)
Definition submit (u : UID) : UID :=
  set_device (device u ++ [payloadE u]) u.

(** One atomic piece of [flushData]; [None] when the goroutine cannot move
    (parked in [Wait], or returned). *)
Definition flushData (u : UID) : option UID :=
  match flushData_at u with
  | FSelect =>
      if flusherQuit u
      then Some (set_wg (pred (wg u)) (set_flushData_at FReturned u))
      else Some (set_flushData_at FWait u)
  | FWait =>
      Some (set_flushData_at FParked (set_flusher (Cond.enqueue (flusher u)) u))
  | FParked =>
      if Cond.waiting (flusher u) then None
      else Some (set_flushData_at FSubmit (drain u))
  | FSubmit => Some (set_flushData_at FSelect (submit u))
  | FReturned => None
  end.

(** ** The ticker goroutine *)

(** The [case <-uid.ticking.C] branch. *)
Definition tickRcvr_tick (u : UID) : option UID :=
  match tickRcvr_at u with
  | TSelect =>
      if ticking u
      then Some (if bool_decide (cumChanges u > 0)%Z then signalFlusher u else u)
      else None
  | TReturned => None
  end.

(** The [case <-uid.tickerQuit] branch. *)
Definition tickRcvr_quit (u : UID) : option UID :=
  match tickRcvr_at u with
  | TSelect =>
      if tickerQuit u
      then Some (set_wg (pred (wg u))
                   (set_tickRcvr_at TReturned (set_ticking false u)))
      else None
  | TReturned => None
  end.

(** ** Lifecycle *)

(** A fresh [UID] after a successful [Init]: [Keygen] returned no error,
    both goroutines are started. *)
Definition started : UID :=
  mkUID (payloadElement.mk UIDVERSION UIDTYPE [] [] [])
        ∅ ∅ [] (Cond.mk false 0) 2 true false false 0 true
        FSelect TSelect CEntry.

(** [Init]: [keygen] is the result of [uid.device.Keygen(user, passwd)]. *)
Definition Init (keygen : option string) : string + UID :=
  match keygen with
  | Some err => inl err
  | None => inr started
  end.

Definition IsRunning (u : UID) : bool := isRunning u.

(** One atomic piece of [Close]; [None] while it is blocked in [wg.Wait()]. *)
Definition Close (u : UID) : option UID :=
  match Close_at u with
  | CEntry =>
      if isRunning u
      then Some (set_Close_at CSignal (set_flusherQuit true u))
      else Some (set_isRunning false u)
  | CSignal => Some (set_Close_at CTickerQuit (signalFlusher u))
  | CTickerQuit => Some (set_Close_at CWait (set_tickerQuit true u))
  | CWait =>
      if bool_decide (wg u = 0)
      then Some (set_Close_at CEntry (set_isRunning false u))
      else None
  end.

(** [Marshall]: [xml_Marshal] stands for [encoding/xml]'s [Marshal]. *)
Definition Marshall {B} (xml_Marshal : payloadElement.t → B) (u : UID) : B :=
  xml_Marshal (payloadE u).

(** ** Schedules *)

Inductive event :=
  | CallAddLogin (username ipaddr timeout : string)
  | CallAddLogout (username ipaddr : string)
  | CallAddGroupMember (group member : string)
  | CallRemoveGroupMember (group member : string)
  | StepTick
  | StepTickerQuit
  | StepFlushData
  | StepClose.

(** [step ev u] is [None] when the goroutine that [ev] belongs to cannot move
    in [u]. *)
Definition step (ev : event) (u : UID) : option UID :=
  match ev with
  | CallAddLogin username ipaddr timeout => Some (AddLogin username ipaddr timeout u)
  | CallAddLogout username ipaddr => Some (AddLogout username ipaddr u)
  | CallAddGroupMember group member => Some (AddGroupMember group member u)
  | CallRemoveGroupMember group member => Some (RemoveGroupMember group member u)
  | StepTick => tickRcvr_tick u
  | StepTickerQuit => tickRcvr_quit u
  | StepFlushData => flushData u
  | StepClose => Close u
  end.

(** A blocked goroutine leaves the state as it is. *)
Definition exec (ev : event) (u : UID) : UID := default u (step ev u).

Definition run (evs : list event) (u : UID) : UID := foldl (λ u ev, exec ev u) u evs.

(** ** The API connector ([ApiConnector])

    The other half of the package: the connector that the engine hands its
    envelopes to.  What lies outside the package is taken as given: the
    device behind [http.Client.PostForm] and [encoding/xml]'s [Unmarshal] at
    each struct the code decodes into.  A [[]byte] is a [string] here, and a
    slice or [[]byte] that the code tests against [nil] is an [option].
    [time.Sleep] between two polls is not modelled. *)

Module Values.
(** [url.Values]: each key holds the list of its values. *)
Abbreviation t := (gmap string (list string)).

Definition Set_ (key value : string) (q : t) : t := <[key := [value]]> q.

Definition Add (key value : string) (q : t) : t :=
  <[key := default [] (q !! key) ++ [value]]> q.
End Values.

Module ApiConnector.

Definition error : Type := string.

(** The newline and the double quote of the Go string literals. *)
Definition nl : string := String (Ascii.ascii_of_nat 10) EmptyString.
Definition dquote : string := String (Ascii.ascii_of_nat 34) EmptyString.

Definition _apiPath : string := "/api/?".
Definition _TYPE_KEYGEN : string := "keygen".
Definition _TYPE_UID : string := "user-id".
Definition _TYPE_OP : string := "op".
Definition _TYPE_CONFIG : string := "config".
Definition _TYPE_REPORT : string := "report".
Definition _TYPE_EXPORT : string := "export".
Definition _ACTION_SET : string := "set".
Definition _ACTION_GET : string := "get".
Definition _comsError : string := "API_COMSERROR".
Definition _comsErrorCode : string := "-1".
Definition STATUS_OK : string := "success".
Definition STATUS_ERROR : string := "error".
Definition _statusFin : string := "FIN".

Definition actionArray : list string := ["show"; "get"; "set"; "edit"; "delete"].
Definition reportTypeMap : list string := ["dynamic"; "predefined"; "custom"].
Definition exportCategoryMap : list string :=
  ["certificate"; "high-availability-key"; "key-pair"; "application-block-page";
   "captive-portal-text"; "file-block-continue-page"; "file-block-page";
   "global-protect-portal-custom-help-page";
   "global-protect-portal-custom-login-page";
   "global-protect-portal-custom-welcome-page";
   "ssl-cert-status-page"; "ssl-optout-text"; "url-block-page"; "url-coach-text";
   "virus-block-page"; "tech-support"; "device-state"; "application-pcap";
   "threat-pcap"; "filter-pcap"; "dlp-pcap"].

(** *** The response structs *)

Record xmlResult := mk_xmlResult { XmlResult : option string }.

Record keygenResp := mk_keygenResp {
  kg_Status : string; kg_Code : string; KeyNode : string; kg_MsgNode : string
}.

Record genericResp := mk_genericResp {
  g_Status : string; g_Code : string; XmlData : xmlResult;
  MsgNode_Line : option (list string)
}.

Record uidResp := mk_uidResp {
  u_Status : string; ResultData : xmlResult; MsgLoginValue : string
}.

Record asyncResp := mk_asyncResp {
  a_Status : string; a_MsgNode : string; JobId : string
}.

Record jobResp := mk_jobResp { j_Status : string; Percent : string }.

Record reportJobResp := mk_reportJobResp {
  r_Status : string; r_Job : jobResp; r_Report : xmlResult
}.

(** The zero value that [var reportJResp reportJobResp] starts from. *)
Definition reportJobResp_zero : reportJobResp :=
  mk_reportJobResp "" (mk_jobResp "" "") (mk_xmlResult None).

(** *** The connector and its surroundings *)

Record t := mk {
  hostname : string;
  apikey : string;
  PanosVersion : string;
  debugMode : bool;
  target : string;
  vsys : string;
  LastStatus : string;
  LastStatusCode : string;
  LastResponseMessage : string;
  LastUnmarshallError : option error
}.

(** A call of [PostForm]: the URL and the form. *)
Definition request : Type := string * Values.t.

(** The connector together with what it has done to the outside so far: the
    requests posted and the lines given to [log.Println], oldest first. *)
Record Sys := mkSys {
  apiC : t;
  posted : list request;
  logged : list string
}.

(** What the package does not define.  [PostForm] answers a request, given
    the requests posted before it, with a transport error or with the body
    of the reply.  An [Unmarshal] whose error the code drops returns the
    struct as decoding leaves it; [Unmarshal_reportJobResp] decodes into the
    struct of the previous poll, as the loop of [getReportJob] does. *)
Class External := {
  PostForm : list request → request → error + string;
  Unmarshal_keygenResp : string → keygenResp;
  Unmarshal_genericResp : string → error + genericResp;
  Unmarshal_uidResp : string → error + uidResp;
  Unmarshal_asyncResp : string → error + asyncResp;
  Unmarshal_reportJobResp : string → reportJobResp → error + reportJobResp;
  Unmarshal_swVersion : string → string;
  Unmarshal_chardata : string → string
}.

(** *** Running a method

    A method ends with a value and a new state, or panics, or (the polling
    loop only) is still running when the fuel is spent. *)
Inductive outcome (A : Type) :=
  | Ret (a : A) (s : Sys)
  | Panicked (s : Sys)
  | OutOfFuel.
Arguments Ret {A} a s.
Arguments Panicked {A} s.
Arguments OutOfFuel {A}.

Definition M (A : Type) : Type := Sys → outcome A.

#[global] Instance M_ret : MRet M := λ A a s, Ret a s.
#[global] Instance M_bind : MBind M := λ A B f m s,
  match m s with
  | Ret a s' => f a s'
  | Panicked s' => Panicked s'
  | OutOfFuel => OutOfFuel
  end.

Definition get : M t := λ s, Ret (apiC s) s.
Definition modify (f : t → t) : M unit :=
  λ s, Ret () (mkSys (f (apiC s)) (posted s) (logged s)).
Definition panic {A} : M A := λ s, Panicked s.
Definition Println (line : string) : M unit :=
  λ s, Ret () (mkSys (apiC s) (posted s) (logged s ++ [line])).
Definition post `{External} (url : string) (q : Values.t) : M (error + string) :=
  λ s, Ret (PostForm (posted s) (url, q))
           (mkSys (apiC s) (posted s ++ [(url, q)]) (logged s)).

(** [l[i]] for an [int] index: a panic when out of range. *)
Definition index (l : list string) (i : Z) : M string :=
  if bool_decide (0 ≤ i)%Z
  then match l !! Z.to_nat i with
       | Some x => mret x
       | None => panic
       end
  else panic.

Definition set_hostname (v : string) (c : t) : t :=
  mk v (apikey c) (PanosVersion c) (debugMode c) (target c) (vsys c)
     (LastStatus c) (LastStatusCode c) (LastResponseMessage c) (LastUnmarshallError c).
Definition set_apikey (v : string) (c : t) : t :=
  mk (hostname c) v (PanosVersion c) (debugMode c) (target c) (vsys c)
     (LastStatus c) (LastStatusCode c) (LastResponseMessage c) (LastUnmarshallError c).
Definition set_PanosVersion (v : string) (c : t) : t :=
  mk (hostname c) (apikey c) v (debugMode c) (target c) (vsys c)
     (LastStatus c) (LastStatusCode c) (LastResponseMessage c) (LastUnmarshallError c).
Definition set_debugMode (v : bool) (c : t) : t :=
  mk (hostname c) (apikey c) (PanosVersion c) v (target c) (vsys c)
     (LastStatus c) (LastStatusCode c) (LastResponseMessage c) (LastUnmarshallError c).
Definition set_target (v : string) (c : t) : t :=
  mk (hostname c) (apikey c) (PanosVersion c) (debugMode c) v (vsys c)
     (LastStatus c) (LastStatusCode c) (LastResponseMessage c) (LastUnmarshallError c).
Definition set_vsys (v : string) (c : t) : t :=
  mk (hostname c) (apikey c) (PanosVersion c) (debugMode c) (target c) v
     (LastStatus c) (LastStatusCode c) (LastResponseMessage c) (LastUnmarshallError c).
Definition set_LastStatus (v : string) (c : t) : t :=
  mk (hostname c) (apikey c) (PanosVersion c) (debugMode c) (target c) (vsys c)
     v (LastStatusCode c) (LastResponseMessage c) (LastUnmarshallError c).
Definition set_LastStatusCode (v : string) (c : t) : t :=
  mk (hostname c) (apikey c) (PanosVersion c) (debugMode c) (target c) (vsys c)
     (LastStatus c) v (LastResponseMessage c) (LastUnmarshallError c).
Definition set_LastResponseMessage (v : string) (c : t) : t :=
  mk (hostname c) (apikey c) (PanosVersion c) (debugMode c) (target c) (vsys c)
     (LastStatus c) (LastStatusCode c) v (LastUnmarshallError c).
Definition set_LastUnmarshallError (v : option error) (c : t) : t :=
  mk (hostname c) (apikey c) (PanosVersion c) (debugMode c) (target c) (vsys c)
     (LastStatus c) (LastStatusCode c) (LastResponseMessage c) v.

(** *** The methods *)

Definition normalizeError `{External} (gResp : genericResp) : string :=
  if bool_decide (g_Status gResp = STATUS_OK) then ""
  else match MsgNode_Line gResp with
       | Some lines => foldl (λ norM line, norM +:+ nl +:+ line) "" lines
       | None =>
           match XmlResult (XmlData gResp) with
           | Some data => Unmarshal_chardata data
           | None => ""
           end
       end.

Definition trace (message : string) : M unit :=
  c ← get; if debugMode c then Println message else mret ().

Definition traceResponse : M unit :=
  c ← get;
  if debugMode c then
    Println ("ApiConnector: response message = " +:+ LastResponseMessage c);;
    Println ("ApiConnector: response statusCode = " +:+ LastStatusCode c);;
    Println ("ApiConnector: response status = " +:+ LastStatus c)
  else mret ().

Definition SetTarget (serial : string) : M unit :=
  trace ("ApiConnector: Set target device to " +:+ serial);;
  modify (set_target serial).

Definition SetVys (vsys : string) : M unit :=
  trace ("ApiConnector: Set target vsys to " +:+ vsys);;
  modify (set_vsys vsys).

Definition addParams (c : t) (q : Values.t) : Values.t :=
  let q := if bool_decide (target c ≠ "") then Values.Add "target" (target c) q else q in
  if bool_decide (vsys c ≠ "") then Values.Add "vsys" (vsys c) q else q.

Definition reportUninit : M error :=
  trace ("ApiConnector: RESTFul call without a valid API KEY. Try calling "
           +:+ dquote +:+ "SetKey()" +:+ dquote +:+ " or "
           +:+ dquote +:+ "KeyGen" +:+ dquote +:+ " first.");;
  mret "no valid API KEY present".

(** The two assignments made when [PostForm] fails. *)
Definition comsError : M unit :=
  modify (set_LastStatus _comsErrorCode);;
  modify (set_LastStatusCode _comsError).

Definition Op `{External} (cmd : string) : M (option string * option error) :=
  c ← get;
  if bool_decide (apikey c = "") then err ← reportUninit; mret (None, Some err)
  else
    trace ("ApiConnector.Op: called with cmd = " +:+ cmd);;
    let q := addParams c (Values.Add "key" (apikey c)
                            (Values.Add "cmd" cmd (Values.Set_ "type" _TYPE_OP ∅))) in
    res ← post ("https://" +:+ hostname c +:+ _apiPath) q;
    match res with
    | inl err => comsError;; mret (None, Some err)
    | inr xmlresponse =>
        trace ("ApiConnector.Op: response" +:+ nl +:+ "..." +:+ nl
                 +:+ xmlresponse +:+ nl +:+ "..." +:+ nl);;
        match Unmarshal_genericResp xmlresponse with
        | inl err =>
            modify (set_LastUnmarshallError (Some err));;
            trace "ApiConnector.Op: Error parsing last response";;
            mret (None, Some err)
        | inr opResp =>
            modify (set_LastUnmarshallError None);;
            modify (set_LastStatus (g_Status opResp));;
            modify (set_LastStatusCode (g_Code opResp));;
            modify (set_LastResponseMessage (normalizeError opResp));;
            traceResponse;;
            mret (XmlResult (XmlData opResp), None)
        end
    end.

Definition grabPanosRelease `{External} : M (option error) :=
  '(data, err) ← Op "<show><system><info></info></system></show>";
  match err with
  | Some _ => mret (Some "Unable to get PANOS release info")
  | None =>
      c ← get;
      if bool_decide (LastStatus c ≠ STATUS_OK)
      then mret (Some (LastResponseMessage c))
      else
        modify (set_PanosVersion (Unmarshal_swVersion (default "" data)));;
        mret None
  end.

Definition Init (Hname : string) : M unit :=
  trace ("ApiConnector.Init: called with hostName = " +:+ Hname);;
  modify (set_hostname Hname).

Definition Debug (debug : bool) : M unit := modify (set_debugMode debug).

Definition SetKey `{External} (key : string) : M (option error) :=
  trace ("ApiConnector.SetKey: called with apiKey = " +:+ key);;
  modify (set_apikey key);;
  grabPanosRelease.

Definition GetKey : M string := c ← get; mret (apikey c).

Definition Keygen `{External} (username password : string) : M (option error) :=
  trace ("ApiConnector.Keygen: called with user = " +:+ username
           +:+ " and password = " +:+ password);;
  let q := Values.Add "password" password
             (Values.Add "user" username (Values.Set_ "type" _TYPE_KEYGEN ∅)) in
  c ← get;
  res ← post ("https://" +:+ hostname c +:+ _apiPath) q;
  match res with
  | inl err => comsError;; mret (Some err)
  | inr xmlresponse =>
      let kResp := Unmarshal_keygenResp xmlresponse in
      modify (set_LastStatusCode (kg_Code kResp));;
      modify (set_LastResponseMessage (kg_MsgNode kResp));;
      modify (set_LastStatus (kg_Status kResp));;
      if bool_decide (kg_Status kResp ≠ STATUS_OK)
      then mret (Some (kg_MsgNode kResp))
      else
        modify (set_apikey (KeyNode kResp));;
        traceResponse;;
        grabPanosRelease
  end.

Definition Uid `{External} (payload : string) : M (option string * option error) :=
  c ← get;
  if bool_decide (apikey c = "") then err ← reportUninit; mret (None, Some err)
  else
    trace ("ApiConnector.Uid: called with payload = " +:+ payload);;
    let q := addParams c
               (Values.Add "cmd" payload
                  (Values.Add "key" (apikey c)
                     (Values.Add "action" _ACTION_SET
                        (Values.Set_ "type" _TYPE_UID ∅)))) in
    res ← post ("https://" +:+ hostname c +:+ _apiPath) q;
    match res with
    | inl err => comsError;; mret (None, Some err)
    | inr xmlresponse =>
        trace ("ApiConnector.Uid: response" +:+ nl +:+ "..." +:+ nl
                 +:+ xmlresponse +:+ nl +:+ "..." +:+ nl);;
        match Unmarshal_uidResp xmlresponse with
        | inl err =>
            modify (set_LastUnmarshallError (Some err));;
            trace "ApiConnector.Uid: Error parsing last response";;
            mret (None, Some err)
        | inr uidResp =>
            modify (set_LastUnmarshallError None);;
            modify (set_LastStatus (u_Status uidResp));;
            modify (set_LastStatusCode "");;
            modify (set_LastResponseMessage (MsgLoginValue uidResp));;
            traceResponse;;
            mret (XmlResult (ResultData uidResp), None)
        end
    end.

Definition Config `{External} (action : Z) (xpathValue elementValue : string)
    : M (option string * option error) :=
  c ← get;
  if bool_decide (apikey c = "") then err ← reportUninit; mret (None, Some err)
  else
    actionName ← index actionArray action;
    trace ("ApiConnector.Op: called with action = " +:+ actionName
             +:+ ", xpath = " +:+ xpathValue
             +:+ " and elementValue = " +:+ elementValue);;
    let q := Values.Add "action" actionName (Values.Set_ "type" _TYPE_CONFIG ∅) in
    let q := if bool_decide (xpathValue ≠ "") then Values.Add "xpath" xpathValue q else q in
    let q := if bool_decide (elementValue ≠ "")
             then Values.Add "element" elementValue q else q in
    let q := addParams c (Values.Add "key" (apikey c) q) in
    res ← post ("https://" +:+ hostname c +:+ _apiPath) q;
    match res with
    | inl err => comsError;; mret (None, Some err)
    | inr xmlresponse =>
        trace ("ApiConnector.Config: response" +:+ nl +:+ "..." +:+ nl
                 +:+ xmlresponse +:+ nl +:+ "..." +:+ nl);;
        match Unmarshal_genericResp xmlresponse with
        | inl err =>
            modify (set_LastUnmarshallError (Some err));;
            trace "ApiConnector.Op: Error parsing last response";;
            mret (None, Some err)
        | inr cfgResp =>
            modify (set_LastUnmarshallError None);;
            modify (set_LastStatus (g_Status cfgResp));;
            modify (set_LastStatusCode (g_Code cfgResp));;
            modify (set_LastResponseMessage (normalizeError cfgResp));;
            traceResponse;;
            mret (XmlResult (XmlData cfgResp), None)
        end
    end.

(** The [for] loop of [getReportJob]; [reportJResp] is the struct that every
    poll decodes into. *)
Fixpoint getReportJob_loop `{External} (fuel : nat) (url : string) (q : Values.t)
    (reportJResp : reportJobResp) : M (option string * option error) :=
  match fuel with
  | O => λ _, OutOfFuel
  | S fuel =>
      res ← post url q;
      match res with
      | inl err => comsError;; mret (None, Some err)
      | inr xmlresponse =>
          trace ("ApiConnector.getReportJob: response" +:+ nl +:+ "..." +:+ nl
                   +:+ xmlresponse +:+ nl +:+ "..." +:+ nl);;
          match Unmarshal_reportJobResp xmlresponse reportJResp with
          | inl err =>
              modify (set_LastUnmarshallError (Some err));;
              trace "ApiConnector.getReportJob: Error parsing last response";;
              mret (None, Some err)
          | inr reportJResp =>
              modify (set_LastUnmarshallError None);;
              if bool_decide (j_Status (r_Job reportJResp) = _statusFin)
              then mret (Some ("<report>"
                                 +:+ default "" (XmlResult (r_Report reportJResp))
                                 +:+ "</report>"), None)
              else trace ".";; getReportJob_loop fuel url q reportJResp
          end
      end
  end.

Definition getReportJob `{External} (fuel : nat) (reportType : Z)
    (jobId action : string) : M (option string * option error) :=
  trace ("ApiConnector.getReportJob: called for job-id " +:+ jobId +:+ " ");;
  c ← get;
  let q := addParams c
             (Values.Add "job-id" jobId
                (Values.Add "action" action
                   (Values.Add "key" (apikey c)
                      (Values.Set_ "type" _TYPE_REPORT ∅)))) in
  getReportJob_loop fuel ("https://" +:+ hostname c +:+ _apiPath) q reportJobResp_zero.

Definition Report `{External} (fuel : nat) (reportType : Z) (reportName cmd : string)
    : M (option string * option error) :=
  c ← get;
  if bool_decide (apikey c = "") then err ← reportUninit; mret (None, Some err)
  else
    typeName ← index reportTypeMap reportType;
    trace ("ApiConnector.Report: called with reportType = " +:+ typeName
             +:+ ", reportName = " +:+ reportName +:+ " and cmd = " +:+ cmd);;
    let q := Values.Add "reporttype" typeName
               (Values.Add "async" "yes" (Values.Set_ "type" _TYPE_REPORT ∅)) in
    let reportName :=
      if bool_decide (reportName = "") then "custom-dynamic-report" else reportName in
    let q := Values.Add "reportname" reportName q in
    let q := if bool_decide (cmd ≠ "") then Values.Add "cmd" cmd q else q in
    let q := addParams c (Values.Add "key" (apikey c) q) in
    res ← post ("https://" +:+ hostname c +:+ _apiPath) q;
    match res with
    | inl err => comsError;; mret (None, Some err)
    | inr xmlresponse =>
        trace ("ApiConnector.Report: response" +:+ nl +:+ "..." +:+ nl
                 +:+ xmlresponse +:+ nl +:+ "..." +:+ nl);;
        match Unmarshal_asyncResp xmlresponse with
        | inl err =>
            modify (set_LastUnmarshallError (Some err));;
            trace "ApiConnector.Report: Error parsing last response";;
            mret (None, Some err)
        | inr jResp =>
            modify (set_LastUnmarshallError None);;
            modify (set_LastStatus (a_Status jResp));;
            modify (set_LastStatusCode "");;
            modify (set_LastResponseMessage (a_MsgNode jResp));;
            '(xmlJobResponse, _) ← getReportJob fuel reportType (JobId jResp) _ACTION_GET;
            traceResponse;;
            mret (xmlJobResponse, None)
        end
    end.

(** [%v] of a [[]struct{ arg, value string }]. *)
Definition sprint_optionalArgs (optionalArgs : list (string * string)) : string :=
  "[" +:+ String.concat " " ((λ av, "{" +:+ av.1 +:+ " " +:+ av.2 +:+ "}") <$> optionalArgs)
      +:+ "]".

Definition Export `{External} (exportCategory : Z)
    (optionalArgs : list (string * string)) : M (option string * option error) :=
  c ← get;
  if bool_decide (apikey c = "") then err ← reportUninit; mret (None, Some err)
  else
    category ← index exportCategoryMap exportCategory;
    trace ("ApiConnector.Export: called with exportCategory = " +:+ category
             +:+ " and optionalArgs = " +:+ sprint_optionalArgs optionalArgs +:+ nl);;
    let q := Values.Add "key" (apikey c)
               (Values.Add "category" category (Values.Set_ "type" _TYPE_EXPORT ∅)) in
    let q := foldl (λ q v, Values.Add v.1 v.2 q) q optionalArgs in
    res ← post ("https://" +:+ hostname c +:+ _apiPath) q;
    match res with
    | inl err => comsError;; mret (None, Some err)
    | inr xmlresponse => mret (Some xmlresponse, None)
    end.

End ApiConnector.

(** ** The engine and its connector together *)

(** [uid.Init] down to the connector: [uid.device.Init(dev)], then
    [uid.device.Keygen(user, passwd)], whose result decides [Init]. *)
Definition InitDevice `{ApiConnector.External} (dev user passwd : string)
    : ApiConnector.M (string + UID) :=
  ApiConnector.Init dev;;
  err ← ApiConnector.Keygen user passwd;
  mret (Init err).

(** What the flusher does with the envelopes of the device log, one after the
    other: [uid.device.Uid(string(message))] with the reply and the error
    dropped.  [xml_Marshal] stands for [encoding/xml]'s [Marshal]. *)
Fixpoint deliver `{ApiConnector.External} (xml_Marshal : payloadElement.t → string)
    (envelopes : list payloadElement.t) : ApiConnector.M unit :=
  match envelopes with
  | [] => mret ()
  | envelope :: envelopes =>
      ApiConnector.Uid (xml_Marshal envelope);;
      deliver xml_Marshal envelopes
  end.

(** ** Observations and auxiliary notions used by the properties *)

(** The number of [Signal] calls made on [uid.flusher] so far. *)
Definition signalsRaised (u : UID) : nat := Cond.signals (flusher u).

(** A call of [AddLogin] or [AddLogout] on [ipaddr]. *)
Inductive mutation :=
  | Login (username timeout : string)
  | Logout (username : string).

(** Making that call. *)
Definition mutate (ipaddr : string) (c : mutation) (u : UID) : UID :=
  match c with
  | Login username timeout => AddLogin username ipaddr timeout u
  | Logout username => AddLogout username ipaddr u
  end.

(** The entry a call asks for. *)
Definition requested (c : mutation) : userPendingEntries.t :=
  match c with
  | Login username timeout => userPendingEntries.mk true username timeout
  | Logout username => userPendingEntries.mk false username ""
  end.

(** [member] is in the member set of [group]. *)
Definition isGroupMember (group member : string) (u : UID) : Prop :=
  ∃ groupId, groups u !! group = Some groupId ∧ member ∈ groupId.

(** A state with 101 counted changes and a pending login: one login and fifty
    rounds of adding a member to a group and removing it again. *)
Definition crowded : UID :=
  run (CallAddLogin "alice" "10.0.0.1" "60"
         :: concat (replicate 50 [CallAddGroupMember "g" "m";
                                  CallRemoveGroupMember "g" "m"]))
      started.

(** [n] calls of [incChange 1] in a row. *)
Definition increments (n : nat) (u : UID) : UID := Nat.iter n (incChange 1) u.

(** What one iteration of the first loop of [flushData] appends to the
    login entries, and to the logout entries. *)
Definition loginOf (kv : string * userPendingEntries.t) : option loginEntry.t :=
  if userPendingEntries.isLogin kv.2
  then Some (loginEntry.mk (userPendingEntries.username kv.2) kv.1
                           (userPendingEntries.timeout kv.2))
  else None.

Definition logoutOf (kv : string * userPendingEntries.t) : option logoutEntry.t :=
  if userPendingEntries.isLogin kv.2
  then None
  else Some (logoutEntry.mk (userPendingEntries.username kv.2) kv.1).

(** The body of the loop of [gGarbage]. *)
Definition collect (gs : gmap string (gset string)) (kv : string * gset string)
    : gmap string (gset string) :=
  if bool_decide (size kv.2 = 0) then delete kv.1 gs else gs.

(** [p] describes the ledger of [u]: its login and logout entries are the
    pending ones, its group entries are the groups of the map with their
    members.  The order of the entries is of no account. *)
Definition describes (p : payloadElement.t) (u : UID) : Prop :=
  (∀ e, e ∈ payloadElement.LoginEntries p ↔
        ip2uTransactions u !! loginEntry.Ip e =
          Some (userPendingEntries.mk true (loginEntry.Name e) (loginEntry.Timeout e))) ∧
  (∀ e, e ∈ payloadElement.LogoutEntries p ↔
        ∃ timeout, ip2uTransactions u !! logoutEntry.Ip e =
          Some (userPendingEntries.mk false (logoutEntry.Name e) timeout)) ∧
  (∀ g, (∃ e, e ∈ payloadElement.GroupEntries p ∧ groupEntry.Name e = g) ↔
        is_Some (groups u !! g)) ∧
  (∀ g m, (∃ e, e ∈ payloadElement.GroupEntries p ∧ groupEntry.Name e = g ∧
                groupMemberEntry.mk m ∈ groupEntry.Members e) ↔
          isGroupMember g m u).

(** [ev] is a call of one of the four mutation operations. *)
Definition isCall (ev : event) : bool :=
  match ev with
  | CallAddLogin _ _ _ | CallAddLogout _ _
  | CallAddGroupMember _ _ | CallRemoveGroupMember _ _ => true
  | _ => false
  end.

(** [isGroupMember] as the code tests it. *)
Definition isGroupMemberb (group member : string) (u : UID) : bool :=
  match groups u !! group with
  | Some groupId => bool_decide (member ∈ groupId)
  | None => false
  end.

(** [ev], taken in [u], is a group-membership change that the counter
    counts: a member added that was not there, or removed that was. *)
Definition countedGroupChange (ev : event) (u : UID) : bool :=
  match ev with
  | CallAddGroupMember group member => negb (isGroupMemberb group member u)
  | CallRemoveGroupMember group member => isGroupMemberb group member u
  | _ => false
  end.

(** [ev], taken in [u], is the drain of the flusher. *)
Definition isDrain (ev : event) (u : UID) : bool :=
  match ev, flushData_at u with
  | StepFlushData, FParked => negb (Cond.waiting (flusher u))
  | _, _ => false
  end.

(** The number of counted group-membership changes since the last drain,
    along the schedule [evs] from [u], given that there were [n] of them
    before it. *)
Fixpoint groupChangesSinceDrain (evs : list event) (u : UID) (n : Z) : Z :=
  match evs with
  | [] => n
  | ev :: evs =>
      groupChangesSinceDrain evs (exec ev u)
        (if isDrain ev u then 0
         else if countedGroupChange ev u then n + 1 else n)%Z
  end.

(** The invariant: the counter is the size of the pending map plus the
    counted group changes [n]; [k] bounds the counter from above. *)
Definition consistent (u : UID) (n k : Z) : Prop :=
  cumChanges u = (Z.of_nat (size (ip2uTransactions u)) + n)%Z ∧
  (0 ≤ n)%Z ∧ (cumChanges u ≤ k)%Z.

(** The flusher is busy: in its loop, but not inside [Wait]. *)
Definition busy (u : UID) : Prop :=
  flushData_at u = FSubmit ∨ flushData_at u = FSelect ∨ flushData_at u = FWait.

(** The number of steps a busy flusher takes until it is inside [Wait]. *)
Definition stepsToPark (pc : flushData_pc) : nat :=
  match pc with
  | FSubmit => 3
  | FSelect => 2
  | FWait => 1
  | FParked | FReturned => 0
  end.

(** The goroutines of the engine that have not returned. *)
Definition running_goroutines (u : UID) : nat :=
  match flushData_at u with FReturned => 0 | _ => 1 end +
  match tickRcvr_at u with TReturned => 0 | TSelect => 1 end.

(** An envelope carries the protocol version and the message type. *)
Definition stamped (e : payloadElement.t) : Prop :=
  payloadElement.Version e = UIDVERSION ∧ payloadElement.Type_ e = UIDTYPE.

(** A method call turned down for want of a key: the error of
    [reportUninit], no data, nothing posted and the connector as it was. *)
Definition refused (o : ApiConnector.outcome (option string * option ApiConnector.error))
    (s : ApiConnector.Sys) : Prop :=
  ∃ s', o = ApiConnector.Ret (None, Some "no valid API KEY present") s' ∧
        ApiConnector.apiC s' = ApiConnector.apiC s ∧
        ApiConnector.posted s' = ApiConnector.posted s.

(** The URL every request goes to. *)
Definition apiURL (c : ApiConnector.t) : string :=
  "https://" +:+ ApiConnector.hostname c +:+ ApiConnector._apiPath.

(** A device for the examples.  It answers the first [up] requests and
    refuses the connection from then on; it accepts every login with the
    key KEY, reports success for every command, and a report job is finished
    from the fourth request on. *)
Definition lab (up : nat) : ApiConnector.External := {|
  ApiConnector.PostForm history req :=
    if bool_decide (length history < up)
    then inr (if bool_decide (3 ≤ length history) then "FIN" else "ACT")
    else inl "connection refused";
  ApiConnector.Unmarshal_keygenResp body :=
    ApiConnector.mk_keygenResp "success" "" "KEY" "";
  ApiConnector.Unmarshal_genericResp body :=
    inr (ApiConnector.mk_genericResp "success" "19"
           (ApiConnector.mk_xmlResult (Some "<system/>")) None);
  ApiConnector.Unmarshal_uidResp body :=
    inr (ApiConnector.mk_uidResp "success" (ApiConnector.mk_xmlResult None) "");
  ApiConnector.Unmarshal_asyncResp body :=
    inr (ApiConnector.mk_asyncResp "success" "" "7");
  ApiConnector.Unmarshal_reportJobResp body previous :=
    inr (ApiConnector.mk_reportJobResp "success"
           (ApiConnector.mk_jobResp body "")
           (ApiConnector.mk_xmlResult (Some "<entry/>")));
  ApiConnector.Unmarshal_swVersion data := "10.1";
  ApiConnector.Unmarshal_chardata data := data
|}.

(** A connector fresh from [var apiC ApiConnector], with nothing posted and
    nothing logged. *)
Definition fresh : ApiConnector.Sys :=
  ApiConnector.mkSys
    (ApiConnector.mk "" "" "" false "" "" "" "" "" None) [] [].

(** A connector that holds a key. *)
Definition keyed : ApiConnector.Sys :=
  ApiConnector.mkSys
    (ApiConnector.mk "fw.example.net" "KEY" "10.1" false "" "" "success" "19" "" None)
    [] [].

(** [o] is the outcome of a method that, from [s], posts one request and
    decodes the reply with [decode].  It returns; it has posted one request,
    to the URL of the API.  If the transport failed, it returns that error
    and no data, with the status fields set to the communication error and
    the message and the unmarshal error of the call before left in place.  If
    the reply did not parse, it returns that error and no data and records
    it, with status, code and message of the call before left in place.  If
    the reply parsed, it returns [result] of it and no error, whatever the
    reply says. *)
Definition one_exchange `{ApiConnector.External} {R : Type}
    (decode : string → ApiConnector.error + R) (result : R → option string)
    (s : ApiConnector.Sys)
    (o : ApiConnector.outcome (option string * option ApiConnector.error)) : Prop :=
  match o with
  | ApiConnector.Ret (data, err) s' =>
      let c := ApiConnector.apiC s in
      let c' := ApiConnector.apiC s' in
      ∃ req,
        ApiConnector.posted s' = ApiConnector.posted s ++ [req] ∧
        req.1 = apiURL c ∧
        match ApiConnector.PostForm (ApiConnector.posted s) req with
        | inl e =>
            data = None ∧ err = Some e ∧
            ApiConnector.LastStatus c' = "-1" ∧
            ApiConnector.LastStatusCode c' = "API_COMSERROR" ∧
            ApiConnector.LastResponseMessage c' = ApiConnector.LastResponseMessage c ∧
            ApiConnector.LastUnmarshallError c' = ApiConnector.LastUnmarshallError c
        | inr body =>
            match decode body with
            | inl e =>
                data = None ∧ err = Some e ∧
                ApiConnector.LastUnmarshallError c' = Some e ∧
                ApiConnector.LastStatus c' = ApiConnector.LastStatus c ∧
                ApiConnector.LastStatusCode c' = ApiConnector.LastStatusCode c ∧
                ApiConnector.LastResponseMessage c' = ApiConnector.LastResponseMessage c
            | inr r =>
                data = result r ∧ err = None ∧
                ApiConnector.LastUnmarshallError c' = None
            end
        end
  | _ => False
  end.

(** The struct in the hands of the loop of [getReportJob] after [n] polls in a
    row that were all answered, all parsed, and none of which reported the
    job as finished; [None] when one of them went otherwise.  [history] is
    what had been posted before the first of them, [r] the struct before
    it. *)
Fixpoint polling `{ApiConnector.External} (history : list ApiConnector.request)
    (req : ApiConnector.request) (r : ApiConnector.reportJobResp) (n : nat)
    : option ApiConnector.reportJobResp :=
  match n with
  | O => Some r
  | S n =>
      match ApiConnector.PostForm history req with
      | inr body =>
          match ApiConnector.Unmarshal_reportJobResp body r with
          | inr r' =>
              if bool_decide (ApiConnector.j_Status (ApiConnector.r_Job r')
                              = ApiConnector._statusFin)
              then None
              else polling (history ++ [req]) req r' n
          | inl _ => None
          end
      | inl _ => None
      end
  end.

(** The request that [getReportJob] polls with. *)
Definition poll_request (c : ApiConnector.t) (jobId action : string)
    : ApiConnector.request :=
  (apiURL c,
   ApiConnector.addParams c
     (Values.Add "job-id" jobId
        (Values.Add "action" action
           (Values.Add "key" (ApiConnector.apikey c)
              (Values.Set_ "type" ApiConnector._TYPE_REPORT ∅))))).

(** The fresh connector with debugging switched on. *)
Definition verbose : ApiConnector.Sys :=
  ApiConnector.mkSys
    (ApiConnector.mk "" "" "" true "" "" "" "" "" None) [] [].

(** A method run from [s] has written nothing to the log, and debugging is
    still off when it ends (by returning or by a panic). *)
Definition quiet {A : Type} (s : ApiConnector.Sys) (o : ApiConnector.outcome A) : Prop :=
  match o with
  | ApiConnector.Ret _ s' | ApiConnector.Panicked s' =>
      ApiConnector.logged s' = ApiConnector.logged s ∧
      ApiConnector.debugMode (ApiConnector.apiC s') = false
  | ApiConnector.OutOfFuel => True
  end.

(** * Properties *)

(** ** Arithmetic of [int] *)

Lemma wrap_int_id (z : Z) : int_range z → wrap_int z = z.
Proof.
  unfold int_range, int_min, int_max, wrap_int. intros Hz.
  rewrite Z.mod_small; lia.
Qed.

Lemma wrap_int_range (z : Z) : int_range (wrap_int z).
Proof.
  unfold int_range, int_min, int_max, wrap_int.
  pose proof (Z.mod_pos_bound (z + 2 ^ 63) (2 ^ 64)). lia.
Qed.

Lemma int_add_exact (a b : Z) : int_range (a + b) → int_add a b = (a + b)%Z.
Proof. apply wrap_int_id. Qed.

(** Closes [int_add a b = ...] goals whose sum stays in range, from linear
    facts in the context. *)
Ltac int_exact :=
  rewrite int_add_exact; [lia | unfold int_range, int_min, int_max in *; lia].

(** Adding [d] and then [-d] gives back a value that was an [int]. *)
Lemma int_add_cancel (c d : Z) : int_range c → int_add (int_add c d) (- d) = c.
Proof.
  unfold int_range, int_min, int_max, int_add, wrap_int. intros Hc.
  replace (((c + d + 2 ^ 63) `mod` 2 ^ 64 - 2 ^ 63 + - d + 2 ^ 63))%Z
    with ((c + d + 2 ^ 63) `mod` 2 ^ 64 + - d)%Z by lia.
  rewrite Zplus_mod_idemp_l.
  replace (c + d + 2 ^ 63 + - d)%Z with (c + 2 ^ 63)%Z by lia.
  rewrite Z.mod_small; lia.
Qed.

(** ** Engine start *)

Lemma Init_ok : Init None = inr started.
Proof. reflexivity. Qed.

Lemma Init_error err : Init (Some err) = inl err.
Proof. reflexivity. Qed.

(** ** What [incChange] touches *)

Lemma incChange_cumChanges d u :
  cumChanges (incChange d u) = int_add (cumChanges u) d.
Proof. unfold incChange. case_bool_decide; reflexivity. Qed.

Lemma incChange_ip2uTransactions d u :
  ip2uTransactions (incChange d u) = ip2uTransactions u.
Proof. unfold incChange. case_bool_decide; reflexivity. Qed.

Lemma incChange_groups d u : groups (incChange d u) = groups u.
Proof. unfold incChange. case_bool_decide; reflexivity. Qed.

Lemma incChange_payloadE d u : payloadE (incChange d u) = payloadE u.
Proof. unfold incChange. case_bool_decide; reflexivity. Qed.

Lemma incChange_signalsRaised d u :
  signalsRaised (incChange d u) =
    if bool_decide (int_add (cumChanges u) d = MAXCHANGES)
    then S (signalsRaised u) else signalsRaised u.
Proof. unfold incChange, signalsRaised. simpl. case_bool_decide; reflexivity. Qed.

Lemma AddLogin_pending username ipaddr timeout u :
  is_Some (ip2uTransactions u !! ipaddr) →
  AddLogin username ipaddr timeout u =
    incChange (-1) (set_ip2uTransactions (delete ipaddr (ip2uTransactions u)) u).
Proof. intros [e He]. unfold AddLogin. rewrite He. reflexivity. Qed.

Lemma AddLogout_pending username ipaddr u :
  is_Some (ip2uTransactions u !! ipaddr) →
  AddLogout username ipaddr u =
    incChange (-1) (set_ip2uTransactions (delete ipaddr (ip2uTransactions u)) u).
Proof. intros [e He]. unfold AddLogout. rewrite He. reflexivity. Qed.

Lemma AddLogin_fresh username ipaddr timeout u :
  ip2uTransactions u !! ipaddr = None →
  AddLogin username ipaddr timeout u =
    incChange 1
      (set_ip2uTransactions
         (<[ipaddr := userPendingEntries.mk true username timeout]>
            (ip2uTransactions u)) u).
Proof. intros He. unfold AddLogin. rewrite He. reflexivity. Qed.

Lemma AddLogout_fresh username ipaddr u :
  ip2uTransactions u !! ipaddr = None →
  AddLogout username ipaddr u =
    incChange 1
      (set_ip2uTransactions
         (<[ipaddr := userPendingEntries.mk false username ""]>
            (ip2uTransactions u)) u).
Proof. intros He. unfold AddLogout. rewrite He. reflexivity. Qed.

(** ** The toggle rule of [AddLogin] and [AddLogout] *)

Lemma mutate_pending ipaddr c u :
  is_Some (ip2uTransactions u !! ipaddr) →
  ip2uTransactions (mutate ipaddr c u) = delete ipaddr (ip2uTransactions u) ∧
  cumChanges (mutate ipaddr c u) = int_add (cumChanges u) (-1).
Proof.
  intros Hp. destruct c; simpl.
  - rewrite AddLogin_pending by done.
    by rewrite incChange_ip2uTransactions, incChange_cumChanges.
  - rewrite AddLogout_pending by done.
    by rewrite incChange_ip2uTransactions, incChange_cumChanges.
Qed.

Lemma mutate_fresh ipaddr c u :
  ip2uTransactions u !! ipaddr = None →
  ip2uTransactions (mutate ipaddr c u) = <[ipaddr := requested c]> (ip2uTransactions u) ∧
  cumChanges (mutate ipaddr c u) = int_add (cumChanges u) 1.
Proof.
  intros Hp. destruct c; simpl.
  - rewrite AddLogin_fresh by done.
    by rewrite incChange_ip2uTransactions, incChange_cumChanges.
  - rewrite AddLogout_fresh by done.
    by rewrite incChange_ip2uTransactions, incChange_cumChanges.
Qed.

(** C1.  Toggle-cancel.  In every state of the ledger, a call of [AddLogin]
    or [AddLogout] on an [ipaddr] that has a pending entry (of either kind)
    removes that entry and decrements the counter by one; on an [ipaddr]
    without a pending entry it inserts an entry of the requested kind and
    increments the counter by one.  In particular, an [AddLogin] that creates
    the pending entry for [ipaddr], followed by a second call of either kind
    on the same [ipaddr], leaves no pending entry for [ipaddr], gives back the
    pending map of before the first call, and restores the counter to its
    value of before the first call.  (The counter is a Go [int]:
    incrementing and decrementing are [int_add].) *)
Theorem toggle_cancel (u : UID) (ipaddr : string) :
  (is_Some (ip2uTransactions u !! ipaddr) →
   ∀ username timeout,
     (ip2uTransactions (AddLogin username ipaddr timeout u)
        = delete ipaddr (ip2uTransactions u) ∧
      cumChanges (AddLogin username ipaddr timeout u)
        = int_add (cumChanges u) (-1)) ∧
     (ip2uTransactions (AddLogout username ipaddr u)
        = delete ipaddr (ip2uTransactions u) ∧
      cumChanges (AddLogout username ipaddr u)
        = int_add (cumChanges u) (-1))) ∧
  (ip2uTransactions u !! ipaddr = None →
   ∀ username timeout,
     (ip2uTransactions (AddLogin username ipaddr timeout u)
        = <[ipaddr := userPendingEntries.mk true username timeout]>
            (ip2uTransactions u) ∧
      cumChanges (AddLogin username ipaddr timeout u)
        = int_add (cumChanges u) 1) ∧
     (ip2uTransactions (AddLogout username ipaddr u)
        = <[ipaddr := userPendingEntries.mk false username ""]>
            (ip2uTransactions u) ∧
      cumChanges (AddLogout username ipaddr u)
        = int_add (cumChanges u) 1)) ∧
  (ip2uTransactions u !! ipaddr = None → int_range (cumChanges u) →
   ∀ username timeout (second : mutation),
     let u' := mutate ipaddr second (AddLogin username ipaddr timeout u) in
     ip2uTransactions u' !! ipaddr = None ∧
     ip2uTransactions u' = ip2uTransactions u ∧
     cumChanges u' = cumChanges u).
Proof.
  split; [|split].
  - intros Hp username timeout. split.
    + apply (mutate_pending ipaddr (Login username timeout) u Hp).
    + apply (mutate_pending ipaddr (Logout username) u Hp).
  - intros Hf username timeout. split.
    + apply (mutate_fresh ipaddr (Login username timeout) u Hf).
    + apply (mutate_fresh ipaddr (Logout username) u Hf).
  - intros Hf Hr username timeout second u'.
    destruct (mutate_fresh ipaddr (Login username timeout) u Hf) as [Hm Hc].
    simpl in Hm, Hc.
    assert (is_Some (ip2uTransactions (AddLogin username ipaddr timeout u) !! ipaddr))
      as Hp by (rewrite Hm, lookup_insert_eq; eauto).
    destruct (mutate_pending ipaddr second _ Hp) as [Hm' Hc'].
    fold u' in Hm', Hc'.
    assert (ip2uTransactions u' = ip2uTransactions u) as Heq.
    { rewrite Hm', Hm, delete_insert_eq. by apply delete_id. }
    split; [by rewrite Heq|]. split; [done|].
    rewrite Hc', Hc. apply (int_add_cancel _ 1 Hr).
Qed.

Lemma toggle_cancel_witness :
  (ip2uTransactions
     (AddLogout "alice" "10.0.0.1" (AddLogin "alice" "10.0.0.1" "60" started))
     !! "10.0.0.1" = None ∧
   cumChanges
     (AddLogout "alice" "10.0.0.1" (AddLogin "alice" "10.0.0.1" "60" started)) = 0%Z) ∧
  cumChanges
    (AddLogin "bob" "10.0.0.1" "" (AddLogin "alice" "10.0.0.1" "60" started)) = 0%Z.
Proof.
  destruct (toggle_cancel started "10.0.0.1") as (_ & _ & Hpair).
  destruct (toggle_cancel (AddLogin "alice" "10.0.0.1" "60" started) "10.0.0.1")
    as (Hrem & _ & _).
  split.
  - destruct (Hpair eq_refl ltac:(vm_compute; split; discriminate)
                "alice" "60" (Logout "alice")) as (H1 & _ & H3).
    split; [exact H1 | exact H3].
  - destruct (Hrem ltac:(vm_compute; eauto) "bob" "") as [[_ H] _].
    rewrite H. reflexivity.
Defined.

(** ** Group membership *)

Lemma AddGroupMember_member group member u :
  isGroupMember group member u → AddGroupMember group member u = u.
Proof.
  intros (groupId & Hg & Hm). unfold AddGroupMember. rewrite Hg.
  by rewrite bool_decide_eq_true_2.
Qed.

Lemma AddGroupMember_absent group member u :
  ¬ isGroupMember group member u →
  AddGroupMember group member u =
    incChange 1
      (set_groups
         (<[group := {[member]} ∪ default ∅ (groups u !! group)]> (groups u)) u).
Proof.
  intros Hn. unfold AddGroupMember.
  destruct (groups u !! group) as [groupId|] eqn:Hg; simpl.
  - rewrite bool_decide_eq_false_2; [done|].
    intros Hm. apply Hn. by exists groupId.
  - by rewrite (right_id_L ∅ (∪)).
Qed.

Lemma AddGroupMember_isGroupMember group member u :
  isGroupMember group member (AddGroupMember group member u).
Proof.
  unfold AddGroupMember.
  destruct (groups u !! group) as [groupId|] eqn:Hg.
  - case_bool_decide as Hm.
    + by exists groupId.
    + exists ({[member]} ∪ groupId). rewrite incChange_groups. simpl.
      rewrite lookup_insert_eq. split; [done | set_solver].
  - exists {[member]}. rewrite incChange_groups. simpl.
    rewrite lookup_insert_eq. split; [done | set_solver].
Qed.

Lemma AddGroupMember_groups group member u :
  groups (AddGroupMember group member u) =
    <[group := {[member]} ∪ default ∅ (groups u !! group)]> (groups u).
Proof.
  unfold AddGroupMember.
  destruct (groups u !! group) as [groupId|] eqn:Hg; simpl.
  - case_bool_decide as Hm.
    + assert ({[member]} ∪ groupId = groupId) as ->
        by (apply subseteq_union_1_L, singleton_subseteq_l, Hm).
      symmetry. by apply insert_id.
    + by rewrite incChange_groups.
  - rewrite incChange_groups. simpl. by rewrite (right_id_L ∅ (∪)).
Qed.

(** With [member] already in [group], two more calls of [AddGroupMember] leave
    the counter where it was: no increment, not one. *)
Lemma AddGroupMember_twice_counterexample :
  let u := AddGroupMember "grp1" "alice" started in
  let u2 := AddGroupMember "grp1" "alice" (AddGroupMember "grp1" "alice" u) in
  groups u !! "grp1" = Some {["alice"]} ∧
  cumChanges u = 1%Z ∧ cumChanges u2 = 1%Z ∧
  cumChanges u2 ≠ (cumChanges u + 1)%Z.
Proof. intros u u2. repeat split; vm_compute; congruence. Qed.

(** C9 (as the code has it).  Group-membership idempotence.  If [group]
    already contains [member], [AddGroupMember group member] changes nothing
    at all: neither the group map nor the counter.  Hence of two consecutive
    calls the second one is without effect in every state.  After them
    [member] is in [group] once ([group] is the old member set with [member]
    added); the two calls together increment the counter exactly once when
    [member] was not in [group] before the first call, and not at all when it
    was. *)
Theorem AddGroupMember_idempotent (u : UID) (group member : string) :
  (isGroupMember group member u → AddGroupMember group member u = u) ∧
  (let u1 := AddGroupMember group member u in
   let u2 := AddGroupMember group member u1 in
   u2 = u1 ∧
   isGroupMember group member u2 ∧
   groups u2 = <[group := {[member]} ∪ default ∅ (groups u !! group)]> (groups u) ∧
   (¬ isGroupMember group member u →
    cumChanges u2 = int_add (cumChanges u) 1) ∧
   (isGroupMember group member u → cumChanges u2 = cumChanges u)).
Proof.
  split; [apply AddGroupMember_member|].
  intros u1 u2.
  assert (u2 = u1) as Heq.
  { apply AddGroupMember_member, AddGroupMember_isGroupMember. }
  rewrite Heq. split; [done|]. split; [apply AddGroupMember_isGroupMember|].
  split; [apply AddGroupMember_groups|]. split.
  - intros Hn. unfold u1. rewrite AddGroupMember_absent by done.
    by rewrite incChange_cumChanges.
  - intros Hm. unfold u1. by rewrite AddGroupMember_member.
Qed.

Lemma AddGroupMember_idempotent_witness :
  (AddGroupMember "grp1" "alice" (AddGroupMember "grp1" "alice" started)
     = AddGroupMember "grp1" "alice" started ∧
   cumChanges (AddGroupMember "grp1" "alice" (AddGroupMember "grp1" "alice" started))
     = 1%Z) ∧
  AddGroupMember "grp1" "alice" (AddGroupMember "grp1" "alice" started)
    = AddGroupMember "grp1" "alice" started.
Proof.
  destruct (AddGroupMember_idempotent started "grp1" "alice")
    as (_ & Hsame & _ & _ & Hone & _).
  destruct (AddGroupMember_idempotent (AddGroupMember "grp1" "alice" started)
              "grp1" "alice") as (Hnoop & _).
  split; [split; [exact Hsame|]|].
  - rewrite Hone; [reflexivity|].
    intros (groupId & Hg & _). vm_compute in Hg. discriminate Hg.
  - apply Hnoop. exists {["alice"]}. split; [reflexivity|].
    by apply elem_of_singleton.
Defined.

(** ** The threshold trigger *)

(** C10.  The trigger fires on arrival at the threshold from either
    direction: [incChange] raises the wake signal if and only if the counter
    after the step equals [MAXCHANGES] = 100, whatever the sign of the step
    ([increment] is [1] or [-1] at every call site).  In particular a
    toggle-cancel ([AddLogin] or [AddLogout] on an address with a pending
    entry) that takes the counter from 101 down to 100 raises the wake
    signal. *)
Theorem incChange_signals_iff (u : UID) (increment : Z) :
  (signalsRaised (incChange increment u) = S (signalsRaised u)
     ↔ cumChanges (incChange increment u) = MAXCHANGES) ∧
  (signalsRaised (incChange increment u) = signalsRaised u
     ↔ cumChanges (incChange increment u) ≠ MAXCHANGES) ∧
  (cumChanges u = 101%Z →
   signalsRaised (incChange (-1) u) = S (signalsRaised u) ∧
   ∀ username ipaddr timeout,
     is_Some (ip2uTransactions u !! ipaddr) →
     (cumChanges (AddLogin username ipaddr timeout u) = 100%Z ∧
      signalsRaised (AddLogin username ipaddr timeout u) = S (signalsRaised u)) ∧
     (cumChanges (AddLogout username ipaddr u) = 100%Z ∧
      signalsRaised (AddLogout username ipaddr u) = S (signalsRaised u))).
Proof.
  rewrite !incChange_signalsRaised, incChange_cumChanges.
  split; [|split].
  - case_bool_decide; split; intros; first [done | lia].
  - case_bool_decide; split; intros; first [done | lia].
  - intros Hc. rewrite Hc. split; [reflexivity|].
    intros username ipaddr timeout Hp.
    rewrite AddLogin_pending, AddLogout_pending by done.
    rewrite incChange_signalsRaised, incChange_cumChanges. simpl.
    rewrite Hc. split; split; reflexivity.
Qed.

Lemma incChange_signals_iff_witness :
  cumChanges (AddLogout "alice" "10.0.0.1" crowded) = 100%Z ∧
  signalsRaised (AddLogout "alice" "10.0.0.1" crowded) = S (signalsRaised crowded).
Proof.
  destruct (incChange_signals_iff crowded (-1)) as (_ & _ & Hdown).
  destruct (Hdown ltac:(vm_compute; reflexivity)) as [_ Hcancel].
  destruct (Hcancel "alice" "10.0.0.1" "" ltac:(vm_compute; eauto)) as [_ Hlogout].
  exact Hlogout.
Defined.

Lemma increments_cumChanges n u :
  (0 ≤ cumChanges u)%Z → (cumChanges u + Z.of_nat n ≤ int_max)%Z →
  cumChanges (increments n u) = (cumChanges u + Z.of_nat n)%Z.
Proof.
  unfold increments. induction n as [|n IH]; intros H0 Hmax; simpl.
  - lia.
  - rewrite incChange_cumChanges, IH by lia.
    rewrite int_add_exact; [lia|]. unfold int_range, int_min. lia.
Qed.

Lemma increments_signalsRaised n u :
  cumChanges u = 0%Z → (Z.of_nat n ≤ int_max)%Z →
  signalsRaised (increments n u) =
    if bool_decide (100 ≤ n) then S (signalsRaised u) else signalsRaised u.
Proof.
  intros H0. induction n as [|n IH]; intros Hmax.
  - reflexivity.
  - change (increments (S n) u) with (incChange 1 (increments n u)).
    rewrite incChange_signalsRaised, increments_cumChanges, IH, H0 by lia.
    rewrite int_add_exact by (unfold int_range, int_min; lia).
    unfold MAXCHANGES.
    repeat case_bool_decide; first [reflexivity | lia].
Qed.

(** C6.  Threshold trigger.  An increment of the counter raises the wake
    signal exactly when it makes the counter equal to the threshold 100:
    the step from 99 to 100 raises it and a step to any other value does
    not, so that along single-step increments from an empty ledger the
    signal has been raised once as soon as 100 changes have accumulated and
    not before.  A timer tick that finds the counter at 0 raises no signal and
    changes nothing; with the flusher parked, no amount of such ticks lets it
    run, so nothing is submitted to the device. *)
Theorem threshold_trigger (u : UID) :
  (int_range (cumChanges u) →
   (signalsRaised (incChange 1 u) = S (signalsRaised u) ↔ cumChanges u = 99%Z) ∧
   (signalsRaised (incChange 1 u) = signalsRaised u ↔ cumChanges u ≠ 99%Z)) ∧
  (cumChanges u = 99%Z →
   cumChanges (incChange 1 u) = 100%Z ∧
   signalsRaised (incChange 1 u) = S (signalsRaised u)) ∧
  (cumChanges u = 0%Z →
   (∀ n : nat, (Z.of_nat n ≤ int_max)%Z →
      cumChanges (increments n u) = Z.of_nat n ∧
      signalsRaised (increments n u) =
        if bool_decide (100 ≤ n) then S (signalsRaised u) else signalsRaised u) ∧
   exec StepTick u = u ∧
   (flushData_at u = FParked → Cond.waiting (flusher u) = true →
    ∀ n : nat,
      let u' := run (concat (replicate n [StepTick; StepFlushData])) u in
      u' = u ∧ device u' = device u ∧ signalsRaised u' = signalsRaised u)).
Proof.
  split; [|split].
  - intros Hr. rewrite incChange_signalsRaised.
    assert (int_add (cumChanges u) 1 = MAXCHANGES ↔ cumChanges u = 99%Z) as Hiff.
    { unfold MAXCHANGES. destruct (decide (cumChanges u = int_max)) as [->|Hne].
      - vm_compute. split; discriminate.
      - rewrite int_add_exact; [lia|].
        unfold int_range, int_min, int_max in *. lia. }
    case_bool_decide as Hc; rewrite Hiff in Hc; split; split; intros; first [done | lia].
  - intros Hc. rewrite incChange_signalsRaised, incChange_cumChanges, Hc.
    split; reflexivity.
  - intros H0. split; [|split].
    + intros n Hn. split.
      * rewrite increments_cumChanges; lia.
      * by apply increments_signalsRaised.
    + unfold exec, step, tickRcvr_tick.
      destruct (tickRcvr_at u), (ticking u); simpl; try reflexivity.
      rewrite bool_decide_eq_false_2 by lia. reflexivity.
    + intros Hp Hw n u'.
      assert (u' = u) as ->; [|done].
      unfold u'. clear u'. induction n as [|n IH]; [reflexivity|].
      simpl. 
      assert (exec StepTick u = u) as ->.
      { unfold exec, step, tickRcvr_tick.
        destruct (tickRcvr_at u), (ticking u); simpl; try reflexivity.
        rewrite bool_decide_eq_false_2 by lia. reflexivity. }
      assert (exec StepFlushData u = u) as ->; [|exact IH].
      unfold exec, step, flushData. rewrite Hp, Hw. reflexivity.
Qed.

Lemma threshold_trigger_witness :
  signalsRaised (increments 99 started) = 0 ∧
  signalsRaised (increments 100 started) = 1 ∧
  signalsRaised (incChange 1 (increments 99 started)) = 1 ∧
  device (run (concat (replicate 3 [StepTick; StepFlushData]))
              (run [StepFlushData; StepFlushData] started)) = [].
Proof.
  destruct (threshold_trigger started) as (_ & _ & Hfresh).
  destruct (Hfresh eq_refl) as (Hacc & _ & _).
  destruct (threshold_trigger (increments 99 started)) as (Hiff & Hstep & _).
  destruct (threshold_trigger (run [StepFlushData; StepFlushData] started))
    as (_ & _ & Hparked).
  destruct (Hparked eq_refl) as (_ & _ & Hticks).
  split; [|split; [|split]].
  - destruct (Hacc 99 ltac:(vm_compute; discriminate)) as [_ ->]. reflexivity.
  - destruct (Hacc 100 ltac:(vm_compute; discriminate)) as [_ ->]. reflexivity.
  - destruct (Hiff ltac:(vm_compute; split; discriminate)) as [[_ Hup] _].
    rewrite Hup; reflexivity.
  - destruct (Hticks eq_refl eq_refl 3) as (_ & -> & _). reflexivity.
Defined.

(** ** What a drain builds and what it leaves *)

Section folds.
Context {A B : Type}.

(** A loop that appends one element per iteration is a [map]. *)
Lemma foldl_snoc_fmap (f : A → B) (acc : list B) (l : list A) :
  foldl (λ acc x, acc ++ [f x]) acc l = acc ++ (f <$> l).
Proof.
  revert acc. induction l as [|x l IH]; intros acc; simpl.
  - by rewrite app_nil_r.
  - rewrite IH. by rewrite <- app_assoc.
Qed.

End folds.

Lemma prepareMembers_fmap (gMembers : gset string) :
  prepareMembers gMembers = groupMemberEntry.mk <$> elements gMembers.
Proof. unfold prepareMembers. by rewrite foldl_snoc_fmap. Qed.

Lemma prepareMembers_empty : prepareMembers ∅ = [].
Proof. by rewrite prepareMembers_fmap, elements_empty. Qed.

Lemma elem_of_prepareMembers (gMembers : gset string) (mName : string) :
  groupMemberEntry.mk mName ∈ prepareMembers gMembers ↔ mName ∈ gMembers.
Proof.
  rewrite prepareMembers_fmap, list_elem_of_fmap. split.
  - intros (m & Heq & Hm). injection Heq as ->. by apply elem_of_elements.
  - intros Hm. exists mName. split; [done|]. by apply elem_of_elements.
Qed.

Lemma prepareGroups_fmap (gs : gmap string (gset string)) :
  prepareGroups gs =
    (λ kv, groupEntry.mk kv.1 (prepareMembers kv.2)) <$> map_to_list gs.
Proof.
  unfold prepareGroups.
  enough (∀ l entries,
    foldl (λ entries '(gName, gMembers),
             entries ++ [groupEntry.mk gName (prepareMembers gMembers)])
          entries l
    = entries ++ ((λ kv, groupEntry.mk kv.1 (prepareMembers kv.2)) <$> l)) as H
    by apply (H _ []).
  induction l as [|[gName gMembers] l IH]; intros entries; simpl.
  - by rewrite app_nil_r.
  - rewrite IH. by rewrite <- app_assoc.
Qed.

Lemma elem_of_prepareGroups (gs : gmap string (gset string)) (e : groupEntry.t) :
  e ∈ prepareGroups gs ↔
  ∃ gMembers, gs !! groupEntry.Name e = Some gMembers ∧
              groupEntry.Members e = prepareMembers gMembers.
Proof.
  rewrite prepareGroups_fmap, list_elem_of_fmap. split.
  - intros ([gName gMembers] & -> & Hin). simpl.
    exists gMembers. split; [by apply elem_of_map_to_list | done].
  - intros (gMembers & Hg & Hm). exists (groupEntry.Name e, gMembers).
    split; [destruct e; simpl in *; by subst | by apply elem_of_map_to_list].
Qed.

Lemma prepareEntries_omap (m : gmap string userPendingEntries.t) :
  prepareEntries m = (omap loginOf (map_to_list m), omap logoutOf (map_to_list m)).
Proof.
  unfold prepareEntries.
  enough (∀ l logins logouts,
    foldl (λ '(logins, logouts) '(ipaddr, uidMap),
             if userPendingEntries.isLogin uidMap
             then (logins ++ [loginEntry.mk (userPendingEntries.username uidMap)
                                            ipaddr
                                            (userPendingEntries.timeout uidMap)],
                   logouts)
             else (logins,
                   logouts ++ [logoutEntry.mk (userPendingEntries.username uidMap)
                                              ipaddr]))
          (logins, logouts) l
    = (logins ++ omap loginOf l, logouts ++ omap logoutOf l)) as H
    by apply (H _ [] []).
  induction l as [|[ipaddr uidMap] l IH]; intros logins logouts; simpl.
  - by rewrite !app_nil_r.
  - unfold loginOf, logoutOf. simpl.
    destruct (userPendingEntries.isLogin uidMap); rewrite IH; simpl;
      by rewrite <- app_assoc.
Qed.

Lemma elem_of_prepareEntries_logins m (e : loginEntry.t) :
  e ∈ (prepareEntries m).1 ↔
  m !! loginEntry.Ip e =
    Some (userPendingEntries.mk true (loginEntry.Name e) (loginEntry.Timeout e)).
Proof.
  rewrite prepareEntries_omap. simpl. rewrite list_elem_of_omap. split.
  - intros ([ipaddr [l n t]] & Hin & Heq). apply elem_of_map_to_list in Hin.
    unfold loginOf in Heq. simpl in Heq. destruct l; [|done].
    injection Heq as <-. done.
  - intros Hm. eexists (_, _). split; [by apply elem_of_map_to_list|].
    by destruct e.
Qed.

Lemma elem_of_prepareEntries_logouts m (e : logoutEntry.t) :
  e ∈ (prepareEntries m).2 ↔
  ∃ timeout,
    m !! logoutEntry.Ip e = Some (userPendingEntries.mk false (logoutEntry.Name e) timeout).
Proof.
  rewrite prepareEntries_omap. simpl. rewrite list_elem_of_omap. split.
  - intros ([ipaddr [l n t]] & Hin & Heq). apply elem_of_map_to_list in Hin.
    unfold logoutOf in Heq. simpl in Heq. destruct l; [done|].
    injection Heq as <-. by exists t.
  - intros (t & Hm). eexists (_, _). split; [by apply elem_of_map_to_list|].
    by destruct e.
Qed.

Lemma gGarbage_collect u :
  groups (gGarbage u) = foldl collect (groups u) (map_to_list (groups u)).
Proof.
  unfold gGarbage. simpl. generalize (groups u) at 1 3.
  induction (map_to_list (groups u)) as [|[gName gMembers] l IH]; intros gs; simpl.
  - reflexivity.
  - apply IH.
Qed.

Lemma collect_gone l gs (g : string) :
  gs !! g = None → foldl collect gs l !! g = None.
Proof.
  revert gs. induction l as [|[k v] l IH]; intros gs Hg; simpl; [done|].
  apply IH. unfold collect. simpl. case_bool_decide; [|done].
  destruct (decide (k = g)) as [->|Hne].
  - apply lookup_delete_eq.
  - by rewrite lookup_delete_ne.
Qed.

Lemma collect_empty l gs (g : string) (s : gset string) :
  (g, s) ∈ l → size s = 0 → foldl collect gs l !! g = None.
Proof.
  revert gs. induction l as [|[k v] l IH]; intros gs Hin Hs; simpl.
  - by apply elem_of_nil in Hin.
  - apply elem_of_cons in Hin as [Heq|Hin]; [|by apply IH].
    injection Heq as <- <-. apply collect_gone.
    unfold collect. simpl. rewrite bool_decide_eq_true_2 by done.
    apply lookup_delete_eq.
Qed.

Lemma collect_kept l gs (g : string) :
  (∀ s, (g, s) ∈ l → size s ≠ 0) → foldl collect gs l !! g = gs !! g.
Proof.
  revert gs. induction l as [|[k v] l IH]; intros gs Hne; simpl; [done|].
  rewrite IH.
  - unfold collect. simpl. case_bool_decide as Hv; [|done].
    apply lookup_delete_ne. intros ->. apply (Hne v); [left | done].
  - intros s Hin. apply Hne. by right.
Qed.

(** [gGarbage] drops exactly the groups without members. *)
Lemma gGarbage_lookup u (g : string) :
  groups (gGarbage u) !! g =
    match groups u !! g with
    | Some gMembers => if bool_decide (size gMembers = 0) then None else Some gMembers
    | None => None
    end.
Proof.
  rewrite gGarbage_collect.
  destruct (groups u !! g) as [gMembers|] eqn:Hg.
  - case_bool_decide as Hs.
    + apply (collect_empty _ _ g gMembers); [by apply elem_of_map_to_list | done].
    + rewrite collect_kept; [done|].
      intros s Hin. apply elem_of_map_to_list in Hin. congruence.
  - by apply collect_gone.
Qed.

Lemma drain_ip2uTransactions u : ip2uTransactions (drain u) = ∅.
Proof. reflexivity. Qed.

Lemma drain_cumChanges u : cumChanges (drain u) = 0%Z.
Proof. reflexivity. Qed.

Lemma drain_groups u : groups (drain u) = groups (gGarbage u).
Proof. reflexivity. Qed.

Lemma drain_payloadE u :
  payloadE (drain u) =
    payloadElement.mk (payloadElement.Version (payloadE u))
                      (payloadElement.Type_ (payloadE u))
                      (prepareEntries (ip2uTransactions u)).1
                      (prepareEntries (ip2uTransactions u)).2
                      (prepareGroups (groups u)).
Proof. reflexivity. Qed.

(** One flush cycle of a woken flusher: the drain, then the submission. *)
Lemma flush_cycle u :
  flushData_at u = FParked → Cond.waiting (flusher u) = false →
  run [StepFlushData; StepFlushData] u =
    set_flushData_at FSelect (submit (set_flushData_at FSubmit (drain u))).
Proof.
  intros Hp Hw.
  assert (exec StepFlushData u = set_flushData_at FSubmit (drain u)) as Hdrain.
  { unfold exec, step, flushData. by rewrite Hp, Hw. }
  change (run [StepFlushData; StepFlushData] u)
    with (exec StepFlushData (exec StepFlushData u)).
  by rewrite Hdrain.
Qed.

Lemma flush_cycle_fields u :
  flushData_at u = FParked → Cond.waiting (flusher u) = false →
  let u' := run [StepFlushData; StepFlushData] u in
  ip2uTransactions u' = ∅ ∧
  cumChanges u' = 0%Z ∧
  groups u' = groups (gGarbage u) ∧
  payloadE u' = payloadE (drain u) ∧
  device u' = device u ++ [payloadE u'].
Proof.
  intros Hp Hw u'. unfold u'. rewrite flush_cycle by done.
  repeat split; reflexivity.
Qed.

(** C7.  Flush frame condition.  Every flush cycle (the drain of a woken
    flusher followed by the submission) resets the pending-mutation map to
    empty and the counter to zero, and leaves the group map as it was except
    that the groups without members are removed: every group with at least
    one member is still there with the same members. *)
Theorem flush_frame (u : UID) :
  flushData_at u = FParked → Cond.waiting (flusher u) = false →
  let u' := run [StepFlushData; StepFlushData] u in
  ip2uTransactions u' = ∅ ∧
  cumChanges u' = 0%Z ∧
  (∀ g, groups u' !! g =
          match groups u !! g with
          | Some gMembers => if bool_decide (gMembers = ∅) then None else Some gMembers
          | None => None
          end) ∧
  (∀ g gMembers, groups u !! g = Some gMembers → gMembers ≠ ∅ →
                 groups u' !! g = Some gMembers) ∧
  (∀ g gMembers, groups u' !! g = Some gMembers →
                 groups u !! g = Some gMembers).
Proof.
  intros Hp Hw u'. unfold u'. rewrite flush_cycle by done. simpl.
  assert (∀ g, groups (gGarbage u) !! g =
          match groups u !! g with
          | Some gMembers => if bool_decide (gMembers = ∅) then None else Some gMembers
          | None => None
          end) as Hlookup.
  { intros g. rewrite gGarbage_lookup. destruct (groups u !! g) as [s|]; [|done].
    destruct (decide (s = ∅)) as [->|Hne].
    - by rewrite size_empty, !bool_decide_eq_true_2.
    - rewrite !bool_decide_eq_false_2; [done..|].
      intros Hs. apply Hne. by apply leibniz_equiv, size_empty_iff. }
  split; [done|]. split; [done|]. split; [exact Hlookup|]. split.
  - intros g s Hg Hne. rewrite Hlookup, Hg. by rewrite bool_decide_eq_false_2.
  - intros g s. rewrite Hlookup. destruct (groups u !! g) as [s'|]; [|done].
    case_bool_decide; [done|]. by intros [= ->].
Qed.

Lemma flush_frame_witness :
  let u := run [StepFlushData; StepFlushData;
                CallAddLogin "alice" "10.0.0.1" "60";
                CallAddGroupMember "grp1" "alice";
                CallAddGroupMember "grp2" "bob";
                CallRemoveGroupMember "grp2" "bob";
                StepTick] started in
  let u' := run [StepFlushData; StepFlushData] u in
  ip2uTransactions u' = ∅ ∧ cumChanges u' = 0%Z ∧
  groups u' !! "grp1" = Some {["alice"]} ∧ groups u' !! "grp2" = None.
Proof.
  intros u u'.
  destruct (flush_frame u eq_refl eq_refl) as (Hm & Hc & Hg & _).
  split; [exact Hm|]. split; [exact Hc|].
  split; rewrite Hg; reflexivity.
Defined.

(** ** Empty groups at a flush *)

(** A group emptied before a flush is in the envelope of that flush, and the
    diagnostic serialization taken right after the flush still names it. *)
Lemma empty_group_flushed_counterexample :
  let u := run [StepFlushData; StepFlushData;
                CallAddGroupMember "g" "m";
                CallRemoveGroupMember "g" "m";
                StepTick] started in
  let u' := run [StepFlushData; StepFlushData] u in
  groups u !! "g" = Some ∅ ∧
  device u' = [payloadElement.mk "2.0" "update" [] [] [groupEntry.mk "g" []]] ∧
  groupEntry.mk "g" [] ∈ payloadElement.GroupEntries (Marshall (λ p, p) u').
Proof.
  intros u u'. split; [reflexivity|]. split; [reflexivity|].
  vm_compute. left.
Qed.

(** C3 (as the code has it).  Group garbage collection.  For every group [g]
    whose member set is empty at the start of a flush cycle, the envelope that
    this flush builds and submits still holds an entry for [g], with an empty
    member list; the flush deletes [g] from the group map.  From then on, as
    long as [g] is not created again, the envelopes of later flushes, and with
    them the diagnostic serialization, hold no entry for [g]. *)
Theorem empty_group_collected (u : UID) (g : string) :
  flushData_at u = FParked → Cond.waiting (flusher u) = false →
  groups u !! g = Some ∅ →
  let u' := run [StepFlushData; StepFlushData] u in
  device u' = device u ++ [payloadE u'] ∧
  groupEntry.mk g [] ∈ payloadElement.GroupEntries (payloadE u') ∧
  (∀ e, e ∈ payloadElement.GroupEntries (payloadE u') →
        groupEntry.Name e = g → groupEntry.Members e = []) ∧
  groups u' !! g = None ∧
  (∀ v, flushData_at v = FParked → Cond.waiting (flusher v) = false →
        groups v !! g = None →
        let v' := run [StepFlushData; StepFlushData] v in
        device v' = device v ++ [payloadE v'] ∧
        groups v' !! g = None ∧
        ∀ e, e ∈ payloadElement.GroupEntries (payloadE v') → groupEntry.Name e ≠ g).
Proof.
  intros Hp Hw Hg u'.
  destruct (flush_cycle_fields u Hp Hw) as (_ & _ & Hgs & Hpay & Hdev).
  fold u' in Hgs, Hpay, Hdev. rewrite Hpay in *. rewrite Hgs.
  rewrite drain_payloadE. cbn [payloadElement.GroupEntries].
  split; [done|]. split; [|split; [|split]].
  - apply elem_of_prepareGroups. exists ∅. simpl.
    by rewrite prepareMembers_empty.
  - intros e He Hn. apply elem_of_prepareGroups in He as (s & Hs & Hm).
    rewrite Hn, Hg in Hs. injection Hs as <-.
    by rewrite Hm, prepareMembers_empty.
  - rewrite gGarbage_lookup, Hg. by rewrite size_empty.
  - intros v Hvp Hvw Hvg. set (v' := run [StepFlushData; StepFlushData] v).
    destruct (flush_cycle_fields v Hvp Hvw) as (_ & _ & Hvgs & Hvpay & Hvdev).
    fold v' in Hvgs, Hvpay, Hvdev. rewrite Hvgs.
    split; [done|]. split.
    + by rewrite gGarbage_lookup, Hvg.
    + rewrite Hvpay, drain_payloadE. cbn [payloadElement.GroupEntries].
      intros e He Hn. apply elem_of_prepareGroups in He as (s & Hs & _).
      rewrite Hn, Hvg in Hs. discriminate Hs.
Qed.

Lemma empty_group_collected_witness :
  let u := run [StepFlushData; StepFlushData;
                CallAddGroupMember "g" "m";
                CallRemoveGroupMember "g" "m";
                StepTick] started in
  let u' := run [StepFlushData; StepFlushData] u in
  groupEntry.mk "g" [] ∈ payloadElement.GroupEntries (payloadE u') ∧
  groups u' !! "g" = None.
Proof.
  intros u u'.
  destruct (empty_group_collected u "g" eq_refl eq_refl eq_refl)
    as (_ & Hin & _ & Hgone & _).
  split; [exact Hin | exact Hgone].
Defined.

(** ** The diagnostic serialization *)

Lemma drain_describes u : describes (payloadE (drain u)) u.
Proof.
  rewrite drain_payloadE. split; [|split; [|split]]; simpl.
  - apply elem_of_prepareEntries_logins.
  - apply elem_of_prepareEntries_logouts.
  - intros g. split.
    + intros (e & He & <-). apply elem_of_prepareGroups in He as (s & Hs & _). eauto.
    + intros [s Hs]. exists (groupEntry.mk g (prepareMembers s)). split; [|done].
      apply elem_of_prepareGroups. eauto.
  - intros g m. split.
    + intros (e & He & <- & Hm). apply elem_of_prepareGroups in He as (s & Hs & Heq).
      exists s. split; [done|]. rewrite Heq in Hm. by apply elem_of_prepareMembers.
    + intros (s & Hs & Hm). exists (groupEntry.mk g (prepareMembers s)).
      split; [apply elem_of_prepareGroups; eauto|]. split; [done|].
      simpl. by apply elem_of_prepareMembers.
Qed.

Lemma AddLogin_payloadE username ipaddr timeout u :
  payloadE (AddLogin username ipaddr timeout u) = payloadE u.
Proof.
  unfold AddLogin. destruct (ip2uTransactions u !! ipaddr);
    by rewrite incChange_payloadE.
Qed.

Lemma AddLogout_payloadE username ipaddr u :
  payloadE (AddLogout username ipaddr u) = payloadE u.
Proof.
  unfold AddLogout. destruct (ip2uTransactions u !! ipaddr);
    by rewrite incChange_payloadE.
Qed.

Lemma AddGroupMember_payloadE group member u :
  payloadE (AddGroupMember group member u) = payloadE u.
Proof.
  unfold AddGroupMember. destruct (groups u !! group); [case_bool_decide|];
    first [done | by rewrite incChange_payloadE].
Qed.

Lemma RemoveGroupMember_payloadE group member u :
  payloadE (RemoveGroupMember group member u) = payloadE u.
Proof.
  unfold RemoveGroupMember. destruct (groups u !! group); [case_bool_decide|];
    first [done | by rewrite incChange_payloadE].
Qed.

Lemma calls_payloadE evs u :
  Forall (λ ev, isCall ev = true) evs → payloadE (run evs u) = payloadE u.
Proof.
  revert u. induction evs as [|ev evs IH]; intros u Hall; [done|].
  apply Forall_cons in Hall as [Hev Hall].
  change (run (ev :: evs) u) with (run evs (exec ev u)). rewrite IH by done.
  destruct ev; try discriminate Hev; unfold exec; simpl.
  - apply AddLogin_payloadE.
  - apply AddLogout_payloadE.
  - apply AddGroupMember_payloadE.
  - apply RemoveGroupMember_payloadE.
Qed.

(** With a login pending and no flush yet, what [Marshall] serializes holds no
    login entry. *)
Lemma Marshall_pending_counterexample :
  let u := AddLogin "alice" "10.0.0.1" "60" started in
  ip2uTransactions u !! "10.0.0.1" = Some (userPendingEntries.mk true "alice" "60") ∧
  payloadElement.LoginEntries (Marshall (λ p, p) u) = [] ∧
  ¬ describes (Marshall (λ p, p) u) u.
Proof.
  intros u. split; [reflexivity|]. split; [reflexivity|].
  intros (Hlogins & _).
  assert (loginEntry.mk "alice" "10.0.0.1" "60" ∈ @nil loginEntry.t) as Hin
    by (by apply Hlogins).
  by apply elem_of_nil in Hin.
Qed.

(** C4 (as the code has it).  [Marshall] returns the serialization of
    [uid.payloadE].  That is the envelope built by the most recent flush, or
    the empty envelope when there has been none: after a flush cycle it
    describes the login, logout and group entries that were in the ledger
    when that flush drained it, and the mutation calls made since do not
    change a byte of it. *)
Theorem Marshall_last_flush {B} (xml_Marshal : payloadElement.t → B) (u : UID) :
  Marshall xml_Marshal u = xml_Marshal (payloadE u) ∧
  Marshall xml_Marshal started =
    xml_Marshal (payloadElement.mk UIDVERSION UIDTYPE [] [] []) ∧
  (∀ evs, Forall (λ ev, isCall ev = true) evs →
          Marshall xml_Marshal (run evs u) = Marshall xml_Marshal u) ∧
  (flushData_at u = FParked → Cond.waiting (flusher u) = false →
   let u' := run [StepFlushData; StepFlushData] u in
   describes (payloadE u') u ∧
   device u' = device u ++ [payloadE u'] ∧
   ∀ evs, Forall (λ ev, isCall ev = true) evs →
          Marshall xml_Marshal (run evs u') = xml_Marshal (payloadE u')).
Proof.
  split; [done|]. split; [done|]. split.
  - intros evs Hall. unfold Marshall. by rewrite calls_payloadE.
  - intros Hp Hw u'. unfold u'. rewrite flush_cycle by done. split; [|split].
    + apply drain_describes.
    + reflexivity.
    + intros evs Hall. unfold Marshall. by rewrite calls_payloadE.
Qed.

Lemma Marshall_last_flush_witness :
  let u := run [StepFlushData; StepFlushData;
                CallAddLogin "alice" "10.0.0.1" "60"; StepTick] started in
  let u' := run [StepFlushData; StepFlushData] u in
  describes (payloadE u') u ∧
  Marshall (λ p, p) (run [CallAddLogin "bob" "10.0.0.2" ""] u') = payloadE u'.
Proof.
  intros u u'.
  destruct (Marshall_last_flush (λ p, p) u) as (_ & _ & _ & Hflush).
  destruct (Hflush eq_refl eq_refl) as (Hd & _ & Hcalls).
  split; [exact Hd|].
  apply Hcalls. repeat constructor.
Defined.

(** ** The counter and the ledger *)

Lemma isGroupMemberb_spec group member u :
  isGroupMemberb group member u = true ↔ isGroupMember group member u.
Proof.
  unfold isGroupMemberb, isGroupMember. destruct (groups u !! group) as [s|].
  - rewrite bool_decide_eq_true. split; [eauto|]. by intros (? & [= <-] & ?).
  - split; [done|]. by intros (? & ? & _).
Qed.

Lemma RemoveGroupMember_member group member u :
  isGroupMemberb group member u = true →
  ip2uTransactions (RemoveGroupMember group member u) = ip2uTransactions u ∧
  cumChanges (RemoveGroupMember group member u) = int_add (cumChanges u) 1.
Proof.
  unfold isGroupMemberb, RemoveGroupMember.
  destruct (groups u !! group) as [s|]; [|done]. intros ->.
  by rewrite incChange_ip2uTransactions, incChange_cumChanges.
Qed.

Lemma RemoveGroupMember_absent group member u :
  isGroupMemberb group member u = false → RemoveGroupMember group member u = u.
Proof.
  unfold isGroupMemberb, RemoveGroupMember.
  destruct (groups u !! group) as [s|]; [|done]. by intros ->.
Qed.

Lemma AddGroupMember_ledger group member u :
  ip2uTransactions (AddGroupMember group member u) = ip2uTransactions u ∧
  cumChanges (AddGroupMember group member u) =
    if isGroupMemberb group member u then cumChanges u
    else int_add (cumChanges u) 1.
Proof.
  destruct (isGroupMemberb group member u) eqn:Hb.
  - apply isGroupMemberb_spec in Hb. by rewrite AddGroupMember_member.
  - rewrite AddGroupMember_absent.
    + by rewrite incChange_ip2uTransactions, incChange_cumChanges.
    + rewrite <- isGroupMemberb_spec. by rewrite Hb.
Qed.

Lemma consistent_mutate ipaddr c u n k :
  consistent u n k → (k < int_max)%Z → consistent (mutate ipaddr c u) n (k + 1).
Proof.
  intros (Hc & Hn & Hk) Hmax. unfold consistent.
  assert (int_min < 0)%Z as Hmin by (unfold int_min; lia).
  destruct (ip2uTransactions u !! ipaddr) as [e|] eqn:He.
  - destruct (mutate_pending ipaddr c u) as [-> ->]; [eauto|].
    rewrite map_size_delete_Some by eauto.
    assert (size (ip2uTransactions u) ≠ 0)
      by (intros H0; apply map_size_empty_inv in H0; rewrite H0 in He; done).
    int_exact.
  - destruct (mutate_fresh ipaddr c u He) as [-> ->].
    rewrite map_size_insert_None by done.
    int_exact.
Qed.

Lemma consistent_step ev u n k :
  consistent u n k → (k < int_max)%Z →
  consistent (exec ev u)
    (if isDrain ev u then 0 else if countedGroupChange ev u then n + 1 else n)%Z
    (k + 1).
Proof.
  intros (Hc & Hn & Hk) Hmax. unfold consistent.
  assert (int_min < 0)%Z as Hmin by (unfold int_min; lia).
  destruct ev; unfold exec, isDrain; simpl.
  - change (AddLogin username ipaddr timeout u)
      with (mutate ipaddr (Login username timeout) u).
    by apply consistent_mutate.
  - change (AddLogout username ipaddr u) with (mutate ipaddr (Logout username) u).
    by apply consistent_mutate.
  - destruct (AddGroupMember_ledger group member u) as [-> ->].
    destruct (isGroupMemberb group member u); simpl; [lia|].
    int_exact.
  - destruct (isGroupMemberb group member u) eqn:Hb.
    + destruct (RemoveGroupMember_member group member u Hb) as [-> ->].
      int_exact.
    + rewrite RemoveGroupMember_absent by done. lia.
  - unfold tickRcvr_tick.
    destruct (tickRcvr_at u), (ticking u); simpl; try lia.
    case_bool_decide; simpl; lia.
  - unfold tickRcvr_quit.
    destruct (tickRcvr_at u), (tickerQuit u); simpl; lia.
  - unfold flushData.
    destruct (flushData_at u); simpl; try lia.
    + destruct (flusherQuit u); simpl; lia.
    + destruct (Cond.waiting (flusher u)); simpl; [lia|].
      rewrite map_size_empty. lia.
  - unfold Close.
    destruct (Close_at u); simpl; try lia.
    + destruct (isRunning u); simpl; lia.
    + case_bool_decide; simpl; lia.
Qed.

Lemma consistent_run evs u n k :
  consistent u n k → (k + Z.of_nat (length evs) ≤ int_max)%Z →
  consistent (run evs u) (groupChangesSinceDrain evs u n) (k + Z.of_nat (length evs)).
Proof.
  revert u n k. induction evs as [|ev evs IH]; intros u n k Hinv Hmax.
  - simpl. by rewrite Z.add_0_r.
  - change (run (ev :: evs) u) with (run evs (exec ev u)).
    simpl groupChangesSinceDrain.
    replace (k + Z.of_nat (length (ev :: evs)))%Z
      with ((k + 1) + Z.of_nat (length evs))%Z by (simpl length; lia).
    apply IH.
    + apply consistent_step; [done|]. simpl length in Hmax. lia.
    + simpl length in Hmax. lia.
Qed.

(** C8.  Counter consistency.  In every state reached from engine start by a
    schedule of mutation calls, ticks, flusher steps (drains among them) and
    [Close] steps, the counter equals the number of entries of the
    pending-mutation map plus the number of counted group-membership changes
    since the last drain; so the size of the pending map is at most the
    counter, and the counter is never negative.  (A schedule of fewer than
    2^63 events, the range of a Go [int].) *)
Theorem counter_consistent (evs : list event) :
  (Z.of_nat (length evs) ≤ int_max)%Z →
  let u := run evs started in
  cumChanges u =
    (Z.of_nat (size (ip2uTransactions u)) + groupChangesSinceDrain evs started 0)%Z ∧
  (0 ≤ groupChangesSinceDrain evs started 0)%Z ∧
  (0 ≤ Z.of_nat (size (ip2uTransactions u)) ≤ cumChanges u)%Z ∧
  (0 ≤ cumChanges u)%Z.
Proof.
  intros Hlen u.
  destruct (consistent_run evs started 0 0) as (Hc & Hn & _).
  - unfold consistent. simpl. rewrite map_size_empty. lia.
  - lia.
  - fold u in Hc. lia.
Qed.

Lemma counter_consistent_witness :
  let evs := [StepFlushData; StepFlushData;
              CallAddLogin "alice" "10.0.0.1" "60";
              CallAddLogin "bob" "10.0.0.2" "";
              CallAddLogout "carol" "10.0.0.2";
              CallAddGroupMember "grp1" "alice";
              CallAddGroupMember "grp1" "alice";
              CallRemoveGroupMember "grp1" "alice"] in
  cumChanges (run evs started) = 3%Z ∧
  size (ip2uTransactions (run evs started)) = 1 ∧
  groupChangesSinceDrain evs started 0 = 2%Z.
Proof.
  intros evs.
  destruct (counter_consistent evs ltac:(vm_compute; discriminate)) as (Hc & _).
  split; [|split]; [|reflexivity..].
  rewrite Hc. reflexivity.
Defined.

(** ** The wake signal and the flusher *)

(** The ticker signals while the flusher is submitting; the flusher then parks
    and cannot move, with a login pending and only the earlier batch sent. *)
Lemma lost_signal_counterexample :
  let busy_at_submit :=
    run [StepFlushData; StepFlushData;
         CallAddLogin "alice" "10.0.0.1" "60"; StepTick; StepFlushData] started in
  let signalled := run [CallAddLogin "bob" "10.0.0.2" ""; StepTick] busy_at_submit in
  let u := run [StepFlushData; StepFlushData; StepFlushData] signalled in
  flushData_at busy_at_submit = FSubmit ∧
  signalsRaised signalled = S (signalsRaised busy_at_submit) ∧
  flushData_at u = FParked ∧
  step StepFlushData u = None ∧
  is_Some (ip2uTransactions u !! "10.0.0.2") ∧
  device u = [payloadElement.mk "2.0" "update"
                [loginEntry.mk "alice" "10.0.0.1" "60"] [] []].
Proof.
  intros busy_at_submit signalled u.
  repeat split; try reflexivity. vm_compute. eauto.
Qed.

(** C5 (as the code has it).  A wake signal raised while the flusher is busy
    (not parked) is not kept: [Signal] on a condition variable nobody waits on
    only returns.  The flusher finishes what it is doing, parks, and stays
    parked with the pending mutations still in the ledger; it runs again when
    a signal is raised while it is parked, as the next timer tick does when
    it finds the counter above 0.  A signal raised while the flusher is
    parked makes its [Wait] return, and it drains at once. *)
Theorem signal_while_busy_lost (u : UID) :
  (busy u → flusherQuit u = false →
   let u' := run (replicate (stepsToPark (flushData_at u)) StepFlushData)
                 (signalFlusher u) in
   signalsRaised (signalFlusher u) = S (signalsRaised u) ∧
   flushData_at u' = FParked ∧
   step StepFlushData u' = None ∧
   ip2uTransactions u' = ip2uTransactions u ∧
   groups u' = groups u ∧
   cumChanges u' = cumChanges u) ∧
  (flushData_at u = FParked → Cond.waiting (flusher u) = true →
   step StepFlushData u = None ∧
   step StepFlushData (signalFlusher u) =
     Some (set_flushData_at FSubmit (drain (signalFlusher u))) ∧
   (tickRcvr_at u = TSelect → ticking u = true → (cumChanges u > 0)%Z →
    exec StepTick u = signalFlusher u)).
Proof.
  split.
  - intros Hbusy Hquit.
    destruct u as [p m g d [w s] n t fq tq c r fpc tpc cpc].
    unfold busy in Hbusy. simpl in Hbusy, Hquit. subst fq.
    destruct Hbusy as [->|[->| ->]]; simpl; repeat split; reflexivity.
  - intros Hp Hw.
    destruct u as [p m g d [w s] n t fq tq c r fpc tpc cpc].
    simpl in Hp, Hw. subst fpc w. split; [reflexivity|]. split; [reflexivity|].
    simpl. intros -> -> Hc. unfold exec. simpl.
    by rewrite bool_decide_eq_true_2.
Qed.

Lemma signal_while_busy_lost_witness :
  let busy_at_submit :=
    run [StepFlushData; StepFlushData;
         CallAddLogin "alice" "10.0.0.1" "60"; StepTick; StepFlushData;
         CallAddLogin "bob" "10.0.0.2" ""] started in
  let u' := run [StepFlushData; StepFlushData; StepFlushData]
                (signalFlusher busy_at_submit) in
  (flushData_at u' = FParked ∧ step StepFlushData u' = None ∧ cumChanges u' = 1%Z) ∧
  flushData_at (run [StepTick; StepFlushData] u') = FSubmit.
Proof.
  intros busy_at_submit u'.
  destruct (signal_while_busy_lost busy_at_submit) as [Hlost _].
  destruct (Hlost (or_introl eq_refl) eq_refl) as (_ & Hp & Hb & _ & _ & Hc).
  destruct (signal_while_busy_lost u') as [_ Hparked].
  destruct (Hparked eq_refl eq_refl) as (_ & Hwake & Htick).
  split; [split; [exact Hp | split; [exact Hb | exact Hc]]|].
  change (run [StepTick; StepFlushData] u')
    with (exec StepFlushData (exec StepTick u')).
  rewrite (Htick eq_refl eq_refl ltac:(vm_compute; reflexivity)).
  unfold exec. rewrite Hwake. reflexivity.
Defined.

(** ** [Close] and the pending mutations *)

(** [Close] with the flusher parked and a login pending: the login is sent to
    the device before both goroutines return. *)
Lemma Close_flushes_counterexample :
  let u := run [StepFlushData; StepFlushData;
                CallAddLogin "alice" "10.0.0.1" "60"] started in
  let u' := run [StepClose; StepClose; StepClose;
                 StepFlushData; StepFlushData; StepFlushData;
                 StepTickerQuit; StepClose] u in
  (flushData_at u = FParked ∧
   ip2uTransactions u !! "10.0.0.1" = Some (userPendingEntries.mk true "alice" "60") ∧
   device u = []) ∧
  (device u' = [payloadElement.mk "2.0" "update"
                  [loginEntry.mk "alice" "10.0.0.1" "60"] [] []] ∧
   flushData_at u' = FReturned ∧ tickRcvr_at u' = TReturned ∧
   wg u' = 0 ∧ Close_at u' = CEntry ∧ isRunning u' = false).
Proof. intros u u'. repeat split; reflexivity. Qed.

(** C2 (as the code has it).  [Close] itself drains and submits nothing.
    What becomes of the mutations pending when [Close] is called depends on
    where the flusher is when [Close] raises the wake signal.  If it is
    parked, the signal wakes it and it performs one last drain and submission
    of the pending mutations before it sees the quit channel closed and
    returns.  If it is busy submitting, or about to poll the quit channel,
    the signal is without effect and it returns at its next poll without
    draining: the pending mutations stay in the ledger and are not
    transmitted. *)
Theorem Close_and_pending (u : UID) :
  (∀ u', Close u = Some u' →
         ip2uTransactions u' = ip2uTransactions u ∧ groups u' = groups u ∧
         cumChanges u' = cumChanges u ∧ payloadE u' = payloadE u ∧
         device u' = device u) ∧
  (isRunning u = true → Close_at u = CEntry →
   (flushData_at u = FParked → Cond.waiting (flusher u) = true →
    let u' := run [StepClose; StepClose;
                   StepFlushData; StepFlushData; StepFlushData] u in
    flushData_at u' = FReturned ∧
    device u' = device u ++ [payloadE (drain u)] ∧
    describes (payloadE (drain u)) u ∧
    ip2uTransactions u' = ∅ ∧ cumChanges u' = 0%Z) ∧
   (flushData_at u = FSubmit →
    let u' := run [StepClose; StepClose; StepFlushData; StepFlushData] u in
    flushData_at u' = FReturned ∧
    device u' = device u ++ [payloadE u] ∧
    ip2uTransactions u' = ip2uTransactions u ∧ groups u' = groups u ∧
    cumChanges u' = cumChanges u) ∧
   (flushData_at u = FSelect →
    let u' := run [StepClose; StepClose; StepFlushData] u in
    flushData_at u' = FReturned ∧
    device u' = device u ∧
    ip2uTransactions u' = ip2uTransactions u ∧ groups u' = groups u ∧
    cumChanges u' = cumChanges u)).
Proof.
  split.
  - intros u'. unfold Close.
    destruct (Close_at u); [destruct (isRunning u)| | |case_bool_decide];
      intros [= <-]; repeat split; reflexivity.
  - intros Hr Hc. pose proof (drain_describes u) as Hd.
    destruct u as [p m g d [w s] n t fq tq c r fpc tpc cpc].
    simpl in Hr, Hc. subst r cpc. split; [|split].
    + intros Hp Hw. simpl in Hp, Hw. subst fpc w.
      split; [reflexivity|]. split; [reflexivity|]. split; [exact Hd|].
      split; reflexivity.
    + intros Hp. simpl in Hp. subst fpc. repeat split; reflexivity.
    + intros Hp. simpl in Hp. subst fpc. repeat split; reflexivity.
Qed.

Lemma Close_and_pending_witness :
  let u := run [StepFlushData; StepFlushData;
                CallAddLogin "alice" "10.0.0.1" "60"] started in
  let u' := run [StepClose; StepClose;
                 StepFlushData; StepFlushData; StepFlushData] u in
  flushData_at u' = FReturned ∧
  device u' = [payloadE (drain u)] ∧
  ip2uTransactions u' = ∅.
Proof.
  intros u u'.
  destruct (Close_and_pending u) as [_ Hclose].
  destruct (Hclose eq_refl eq_refl) as (Hparked & _ & _).
  destruct (Hparked eq_refl eq_refl) as (Hret & Hdev & _ & Hm & _).
  split; [exact Hret|]. split; [exact Hdev | exact Hm].
Defined.

(** * Further properties of the engine *)

(** ** Removing group members *)

Lemma RemoveGroupMember_not_member group member u :
  ¬ isGroupMember group member u → RemoveGroupMember group member u = u.
Proof.
  intros Hn. apply RemoveGroupMember_absent.
  destruct (isGroupMemberb group member u) eqn:Hb; [|done].
  by apply isGroupMemberb_spec in Hb.
Qed.

Lemma RemoveGroupMember_present group member groupId u :
  groups u !! group = Some groupId → member ∈ groupId →
  RemoveGroupMember group member u =
    incChange 1 (set_groups (<[group := groupId ∖ {[member]}]> (groups u)) u).
Proof.
  intros Hg Hm. unfold RemoveGroupMember. rewrite Hg.
  by rewrite bool_decide_eq_true_2.
Qed.

Lemma RemoveGroupMember_gone group member u :
  ¬ isGroupMember group member (RemoveGroupMember group member u).
Proof.
  destruct (groups u !! group) as [groupId|] eqn:Hg.
  - destruct (decide (member ∈ groupId)) as [Hm|Hm].
    + rewrite (RemoveGroupMember_present _ _ groupId) by done.
      intros (s & Hs & Hin). rewrite incChange_groups in Hs. simpl in Hs.
      rewrite lookup_insert_eq in Hs. injection Hs as <-.
      apply elem_of_difference in Hin as [_ Hin]. by apply Hin, elem_of_singleton.
    + rewrite RemoveGroupMember_not_member.
      * intros (s & Hs & Hin). congruence.
      * intros (s & Hs & Hin). congruence.
  - rewrite RemoveGroupMember_not_member.
    + intros (s & Hs & _). congruence.
    + intros (s & Hs & _). congruence.
Qed.

(** X1.  [RemoveGroupMember] on a group that does not exist, or on a member
    the group does not hold, changes nothing at all.  After any call
    [member] is not in [group], so the second of two consecutive removals is
    without effect. *)
Theorem RemoveGroupMember_noop (u : UID) (group member : string) :
  (¬ isGroupMember group member u → RemoveGroupMember group member u = u) ∧
  ¬ isGroupMember group member (RemoveGroupMember group member u) ∧
  RemoveGroupMember group member (RemoveGroupMember group member u)
    = RemoveGroupMember group member u.
Proof.
  split; [apply RemoveGroupMember_not_member|]. split.
  - apply RemoveGroupMember_gone.
  - apply RemoveGroupMember_not_member, RemoveGroupMember_gone.
Qed.

Lemma RemoveGroupMember_noop_witness :
  RemoveGroupMember "grp1" "alice" started = started ∧
  RemoveGroupMember "grp1" "bob" (AddGroupMember "grp1" "alice" started)
    = AddGroupMember "grp1" "alice" started.
Proof.
  destruct (RemoveGroupMember_noop started "grp1" "alice") as (Hnone & _ & _).
  destruct (RemoveGroupMember_noop (AddGroupMember "grp1" "alice" started)
              "grp1" "bob") as (Hother & _ & _).
  split.
  - apply Hnone.
    intros (s & Hs & _). vm_compute in Hs. discriminate Hs.
  - apply Hother.
    intros (s & Hs & Hin).
    assert (groups (AddGroupMember "grp1" "alice" started) !! "grp1"
            = Some ({["alice"]} : gset string)) as Heq by reflexivity.
    rewrite Heq in Hs. injection Hs as <-.
    apply elem_of_singleton in Hin. discriminate Hin.
Defined.

(** X2.  [RemoveGroupMember] of a member takes that member out of the group
    and nothing else: the group stays in the map, even when it is left
    without members, the other groups and the pending logins and logouts are
    untouched, and the removal counts as one change. *)
Theorem RemoveGroupMember_removes (u : UID) (group member : string)
    (groupId : gset string) :
  groups u !! group = Some groupId → member ∈ groupId →
  let u' := RemoveGroupMember group member u in
  groups u' !! group = Some (groupId ∖ {[member]}) ∧
  (∀ m, m ≠ member → (isGroupMember group m u' ↔ isGroupMember group m u)) ∧
  (∀ g, g ≠ group → groups u' !! g = groups u !! g) ∧
  ip2uTransactions u' = ip2uTransactions u ∧
  cumChanges u' = int_add (cumChanges u) 1.
Proof.
  intros Hg Hm u'. unfold u'.
  rewrite (RemoveGroupMember_present _ _ groupId) by done.
  rewrite incChange_groups, incChange_ip2uTransactions, incChange_cumChanges.
  simpl. split; [apply lookup_insert_eq|]. split; [|split; [|done]].
  - intros m Hne. unfold isGroupMember. rewrite incChange_groups. simpl.
    rewrite lookup_insert_eq. split.
    + intros (s & [= <-] & Hin). exists groupId. split; [done|].
      by apply elem_of_difference in Hin as [Hin _].
    + intros (s & Hs & Hin). rewrite Hg in Hs. injection Hs as <-.
      eexists. split; [done|].
      apply elem_of_difference. split; [done|]. by rewrite elem_of_singleton.
  - intros g Hne. by apply lookup_insert_ne.
Qed.

Lemma RemoveGroupMember_removes_witness :
  groups (RemoveGroupMember "grp1" "alice" (AddGroupMember "grp1" "alice" started))
    !! "grp1" = Some ({["alice"]} ∖ {["alice"]}) ∧
  cumChanges (RemoveGroupMember "grp1" "alice" (AddGroupMember "grp1" "alice" started))
    = 2%Z.
Proof.
  assert ("alice" ∈ ({["alice"]} : gset string)) as Hin by (by apply elem_of_singleton).
  destruct (RemoveGroupMember_removes (AddGroupMember "grp1" "alice" started)
              "grp1" "alice" {["alice"]} eq_refl Hin)
    as (Hg & _ & _ & _ & Hc).
  split; [exact Hg|]. rewrite Hc. reflexivity.
Defined.

Lemma difference_union_singleton (m : string) (D : gset string) :
  ({[m]} ∪ D) ∖ {[m]} = D ∖ {[m]}.
Proof.
  apply set_eq. intros x. rewrite !elem_of_difference, elem_of_union. tauto.
Qed.

(** X3.  Adding a member and removing it again does not cancel the way a
    login and a second call on its address do: the memberships are those of
    before, but the group now exists (empty, if it did not exist before) and
    the counter has gone up twice. *)
Theorem AddGroupMember_RemoveGroupMember (u : UID) (group member : string) :
  ¬ isGroupMember group member u →
  let u' := RemoveGroupMember group member (AddGroupMember group member u) in
  groups u' = <[group := default ∅ (groups u !! group)]> (groups u) ∧
  (∀ g m, isGroupMember g m u' ↔ isGroupMember g m u) ∧
  cumChanges u' = int_add (int_add (cumChanges u) 1) 1.
Proof.
  intros Hn u'.
  assert (default ∅ (groups u !! group) ∖ {[member]} = default ∅ (groups u !! group))
    as Hdiff.
  { apply leibniz_equiv. apply difference_disjoint.
    apply disjoint_singleton_r. intros Hin. apply Hn.
    destruct (groups u !! group) as [s|] eqn:Hg; simpl in Hin.
    - by exists s.
    - by apply not_elem_of_empty in Hin. }
  assert (groups u' = <[group := default ∅ (groups u !! group)]> (groups u)) as Hgs.
  { unfold u'.
    rewrite (RemoveGroupMember_present _ _ ({[member]} ∪ default ∅ (groups u !! group))).
    - rewrite incChange_groups. simpl. rewrite AddGroupMember_groups.
      rewrite insert_insert_eq. f_equal.
      by rewrite difference_union_singleton, Hdiff.
    - rewrite AddGroupMember_groups. apply lookup_insert_eq.
    - apply elem_of_union_l. by apply elem_of_singleton. }
  split; [exact Hgs|]. split.
  - intros g m. unfold isGroupMember. rewrite Hgs.
    destruct (decide (g = group)) as [->|Hne].
    + rewrite lookup_insert_eq. destruct (groups u !! group) as [s|]; simpl.
      * done.
      * split; intros (s & Hs & Hin); [|done].
        injection Hs as <-. by apply not_elem_of_empty in Hin.
    + by rewrite lookup_insert_ne.
  - unfold u'.
    rewrite (RemoveGroupMember_present _ _ ({[member]} ∪ default ∅ (groups u !! group))).
    + rewrite incChange_cumChanges. simpl.
      rewrite AddGroupMember_absent by done. by rewrite incChange_cumChanges.
    + rewrite AddGroupMember_groups. apply lookup_insert_eq.
    + apply elem_of_union_l. by apply elem_of_singleton.
Qed.

Lemma AddGroupMember_RemoveGroupMember_witness :
  let u' := RemoveGroupMember "grp1" "alice" (AddGroupMember "grp1" "alice" started) in
  groups u' = <[ "grp1" := ∅ ]> ∅ ∧ cumChanges u' = 2%Z.
Proof.
  intros u'.
  assert (¬ isGroupMember "grp1" "alice" started) as Hn.
  { intros (s & Hs & _). vm_compute in Hs. discriminate Hs. }
  destruct (AddGroupMember_RemoveGroupMember started "grp1" "alice" Hn) as (Hg & _ & Hc).
  split; [exact Hg|]. fold u' in Hc. rewrite Hc. reflexivity.
Defined.

(** ** Garbage collection *)

Lemma gGarbage_set_groups u : gGarbage u = set_groups (groups (gGarbage u)) u.
Proof. reflexivity. Qed.

(** X4.  [gGarbage] leaves no group without members in the map, keeps every
    group that has one, touches nothing but the group map, and running it a
    second time changes nothing. *)
Theorem gGarbage_idempotent (u : UID) :
  (∀ g gMembers, groups (gGarbage u) !! g = Some gMembers →
                 gMembers ≠ ∅ ∧ groups u !! g = Some gMembers) ∧
  (∀ g gMembers, groups u !! g = Some gMembers → gMembers ≠ ∅ →
                 groups (gGarbage u) !! g = Some gMembers) ∧
  gGarbage u = set_groups (groups (gGarbage u)) u ∧
  gGarbage (gGarbage u) = gGarbage u.
Proof.
  assert (∀ v g gMembers, groups (gGarbage v) !! g = Some gMembers →
                          size gMembers ≠ 0 ∧ groups v !! g = Some gMembers) as Hkept.
  { intros v g s. rewrite gGarbage_lookup.
    destruct (groups v !! g) as [s'|]; [|done].
    case_bool_decide; [done|]. by intros [= <-]. }
  split; [|split; [|split]].
  - intros g s Hs. destruct (Hkept u g s Hs) as [Hne Hg]. split; [|done].
    intros ->. by rewrite size_empty in Hne.
  - intros g s Hg Hne. rewrite gGarbage_lookup, Hg.
    rewrite bool_decide_eq_false_2; [done|].
    intros Hs. apply Hne. by apply leibniz_equiv, size_empty_iff.
  - apply gGarbage_set_groups.
  - rewrite (gGarbage_set_groups (gGarbage u)).
    assert (groups (gGarbage (gGarbage u)) = groups (gGarbage u)) as ->.
    { apply map_eq. intros g. rewrite gGarbage_lookup.
      destruct (groups (gGarbage u) !! g) as [s|] eqn:Hs; [|done].
      destruct (Hkept u g s Hs) as [Hne _]. by rewrite bool_decide_eq_false_2. }
    reflexivity.
Qed.


Lemma gGarbage_idempotent_witness :
  let u := RemoveGroupMember "grp2" "bob"
             (AddGroupMember "grp2" "bob" (AddGroupMember "grp1" "alice" started)) in
  groups (gGarbage u) !! "grp1" = Some {["alice"]}.
Proof.
  intros u. destruct (gGarbage_idempotent u) as (_ & Hkeep & _).
  apply Hkeep; [reflexivity|].
  intros Hempty. assert ("alice" ∈ (∅ : gset string)) as Hin
    by (rewrite <- Hempty; by apply elem_of_singleton).
  by apply not_elem_of_empty in Hin.
Defined.

(** ** The shape of an envelope *)

Lemma prepareEntries_keys (l : list (string * userPendingEntries.t)) :
  (loginEntry.Ip <$> omap loginOf l) ++ (logoutEntry.Ip <$> omap logoutOf l)
    ≡ₚ l.*1.
Proof.
  induction l as [|[ipaddr [isL n t]] l IH]; [done|].
  unfold loginOf at 1, logoutOf at 1. simpl. destruct isL; simpl.
  - by rewrite IH.
  - rewrite <- Permutation_middle. by rewrite IH.
Qed.

(** X5.  The envelope built by a drain holds every pending address exactly
    once: the addresses of its login entries and of its logout entries are
    pairwise distinct, are the keys of the pending map, and together there
    are as many entries as the map has. *)
Theorem drain_one_entry_per_ip (u : UID) :
  let p := payloadE (drain u) in
  let ips := (loginEntry.Ip <$> payloadElement.LoginEntries p) ++
             (logoutEntry.Ip <$> payloadElement.LogoutEntries p) in
  NoDup ips ∧
  (∀ ipaddr, ipaddr ∈ ips ↔ is_Some (ip2uTransactions u !! ipaddr)) ∧
  length (payloadElement.LoginEntries p) + length (payloadElement.LogoutEntries p)
    = size (ip2uTransactions u).
Proof.
  intros p ips.
  assert (ips ≡ₚ (map_to_list (ip2uTransactions u)).*1) as Hperm.
  { unfold ips, p. rewrite drain_payloadE. simpl.
    rewrite prepareEntries_omap. apply prepareEntries_keys. }
  split; [|split].
  - rewrite Hperm. apply NoDup_fst_map_to_list.
  - intros ipaddr. rewrite Hperm. rewrite list_elem_of_fmap. split.
    + intros ([k e] & -> & Hin). apply elem_of_map_to_list in Hin. eauto.
    + intros [e He]. exists (ipaddr, e). split; [done|].
      by apply elem_of_map_to_list.
  - apply Permutation_length in Hperm. unfold ips in Hperm.
    rewrite length_app, !length_fmap in Hperm. rewrite Hperm.
    apply length_map_to_list.
Qed.

(** X6.  The envelope built by a drain holds one entry per group of the map,
    under pairwise distinct names, and the entry of a group lists each of
    its members once. *)
Theorem drain_one_entry_per_group (u : UID) :
  let entries := payloadElement.GroupEntries (payloadE (drain u)) in
  NoDup (groupEntry.Name <$> entries) ∧
  length entries = size (groups u) ∧
  (∀ e, e ∈ entries →
        ∃ gMembers, groups u !! groupEntry.Name e = Some gMembers ∧
                    NoDup (groupEntry.Members e) ∧
                    length (groupEntry.Members e) = size gMembers ∧
                    ∀ m, groupMemberEntry.mk m ∈ groupEntry.Members e ↔ m ∈ gMembers).
Proof.
  intros entries. unfold entries. rewrite drain_payloadE. simpl.
  split; [|split].
  - rewrite prepareGroups_fmap, <- list_fmap_compose.
    apply NoDup_fst_map_to_list.
  - by rewrite prepareGroups_fmap, length_fmap, length_map_to_list.
  - intros e He. apply elem_of_prepareGroups in He as (s & Hs & Hm).
    exists s. split; [done|]. rewrite Hm. split; [|split].
    + rewrite prepareMembers_fmap. apply NoDup_fmap_2; [|apply NoDup_elements].
      by intros ?? [= ->].
    + by rewrite prepareMembers_fmap, length_fmap.
    + intros m. apply elem_of_prepareMembers.
Qed.

(** ** What the goroutines and the callers leave alone *)

(** The four mutation operations work on the ledger and the condition
    variable only. *)
Lemma call_frame ev u :
  isCall ev = true →
  payloadE (exec ev u) = payloadE u ∧ device (exec ev u) = device u ∧
  wg (exec ev u) = wg u ∧ ticking (exec ev u) = ticking u ∧
  flusherQuit (exec ev u) = flusherQuit u ∧ tickerQuit (exec ev u) = tickerQuit u ∧
  isRunning (exec ev u) = isRunning u ∧ flushData_at (exec ev u) = flushData_at u ∧
  tickRcvr_at (exec ev u) = tickRcvr_at u ∧ Close_at (exec ev u) = Close_at u.
Proof.
  intros Hev. destruct ev; try discriminate Hev; unfold exec; simpl.
  - unfold AddLogin, incChange.
    destruct (ip2uTransactions u !! ipaddr); simpl; case_bool_decide; done.
  - unfold AddLogout, incChange.
    destruct (ip2uTransactions u !! ipaddr); simpl; case_bool_decide; done.
  - unfold AddGroupMember, incChange.
    destruct (groups u !! group); [case_bool_decide; [done|]|];
      simpl; case_bool_decide; done.
  - unfold RemoveGroupMember, incChange.
    destruct (groups u !! group); [case_bool_decide; [|done]|done];
      simpl; case_bool_decide; done.
Qed.

(** No step but the flusher's submission adds to the device log, and that one
    adds the envelope in [payloadE]; no step changes the version and the type
    of [payloadE]. *)
Lemma exec_device ev u :
  (device (exec ev u) = device u ∨ device (exec ev u) = device u ++ [payloadE u]) ∧
  payloadElement.Version (payloadE (exec ev u)) = payloadElement.Version (payloadE u) ∧
  payloadElement.Type_ (payloadE (exec ev u)) = payloadElement.Type_ (payloadE u).
Proof.
  destruct (isCall ev) eqn:Hev.
  - destruct (call_frame ev u Hev) as (-> & -> & _). auto.
  - destruct ev; try discriminate Hev; unfold exec; simpl.
    + unfold tickRcvr_tick. destruct (tickRcvr_at u), (ticking u); simpl; auto.
      case_bool_decide; auto.
    + unfold tickRcvr_quit. destruct (tickRcvr_at u), (tickerQuit u); simpl; auto.
    + unfold flushData. destruct (flushData_at u); simpl; auto.
      * destruct (flusherQuit u); simpl; auto.
      * destruct (Cond.waiting (flusher u)); simpl; auto.
    + unfold Close. destruct (Close_at u); simpl; auto.
      * destruct (isRunning u); simpl; auto.
      * case_bool_decide; simpl; auto.
Qed.

Lemma run_app evs evs' u : run (evs ++ evs') u = run evs' (run evs u).
Proof. apply foldl_app. Qed.

Lemma run_snoc evs ev u : run (evs ++ [ev]) u = exec ev (run evs u).
Proof. by rewrite run_app. Qed.

(** X7.  Along every schedule from engine start, every envelope handed to
    the device carries version 2.0 and type update, and the device log only
    grows: what has been submitted stays submitted, in order. *)
Theorem envelopes_stamped (evs evs' : list event) :
  Forall stamped (device (run evs started)) ∧
  device (run evs started) `prefix_of` device (run (evs ++ evs') started).
Proof.
  assert (∀ evs u, stamped (payloadE u) → Forall stamped (device u) →
            stamped (payloadE (run evs u)) ∧ Forall stamped (device (run evs u)))
    as Hinv.
  { clear. induction evs as [|ev evs IH]; intros u Hp Hd; [done|].
    change (run (ev :: evs) u) with (run evs (exec ev u)).
    destruct (exec_device ev u) as (Hdev & Hv & Ht).
    apply IH.
    - destruct Hp. split; congruence.
    - destruct Hdev as [-> | ->]; [done|].
      apply Forall_app. split; [done|]. by apply Forall_singleton. }
  assert (∀ evs u, device u `prefix_of` device (run evs u)) as Hmono.
  { clear. induction evs as [|ev evs IH]; intros u; [done|].
    change (run (ev :: evs) u) with (run evs (exec ev u)).
    etrans; [|apply IH].
    destruct (exec_device ev u) as ([-> | ->] & _); [done|].
    by apply prefix_app_r. }
  split.
  - apply Hinv; [done | constructor].
  - rewrite run_app. apply Hmono.
Qed.

(** ** Shutdown *)

(** The [WaitGroup] counts the goroutines that have not returned, and the
    engine stops being marked running only when none is left. *)
Lemma wg_accounting evs :
  let u := run evs started in
  wg u = running_goroutines u ∧ (isRunning u = false → wg u = 0).
Proof.
  induction evs as [|ev evs IH] using rev_ind; [by split|].
  rewrite run_snoc. simpl in *. destruct IH as [Hwg Hrun].
  set (u := run evs started) in *. clearbody u.
  destruct (isCall ev) eqn:Hev.
  - destruct (call_frame ev u Hev) as (_ & _ & Hw & _ & _ & _ & Hr & Hf & Ht & _).
    unfold running_goroutines. rewrite Hw, Hr, Hf, Ht. by split.
  - unfold running_goroutines in *.
    destruct u as [p m g d [w s] n t fq tq c r fpc tpc cpc]. simpl in *.
    destruct ev; try discriminate Hev;
      unfold exec, step, tickRcvr_tick, tickRcvr_quit, flushData, Close; simpl.
    + destruct tpc, t; simpl; try case_bool_decide; simpl; by split.
    + destruct tpc, tq; simpl; (split; [lia|]); intros Hr; specialize (Hrun Hr); lia.
    + destruct fpc, fq, w; simpl;
        (split; [lia|]); intros Hr; specialize (Hrun Hr); lia.
    + destruct cpc, r; simpl; try case_bool_decide; simpl;
        (split; [lia|]); intros Hr; first [discriminate Hr | lia | by apply Hrun].
Qed.

Lemma returned_for_good evs u :
  flushData_at u = FReturned →
  flushData_at (run evs u) = FReturned ∧ device (run evs u) = device u.
Proof.
  revert u. induction evs as [|ev evs IH]; intros u Hf; [done|].
  change (run (ev :: evs) u) with (run evs (exec ev u)).
  assert (flushData_at (exec ev u) = FReturned ∧ device (exec ev u) = device u)
    as [Hf' Hd'].
  { destruct (isCall ev) eqn:Hev.
    - destruct (call_frame ev u Hev) as (_ & -> & _ & _ & _ & _ & _ & -> & _). done.
    - destruct ev; try discriminate Hev; unfold exec; simpl.
      + unfold tickRcvr_tick. destruct (tickRcvr_at u), (ticking u); simpl; auto.
        case_bool_decide; auto.
      + unfold tickRcvr_quit. destruct (tickRcvr_at u), (tickerQuit u); simpl; auto.
      + unfold flushData. rewrite Hf. auto.
      + unfold Close. destruct (Close_at u); simpl; auto.
        * destruct (isRunning u); simpl; auto.
        * case_bool_decide; simpl; auto. }
  destruct (IH _ Hf') as [-> ->]. done.
Qed.

(** Once the engine is no longer marked running, both goroutines have
    returned. *)
Lemma stopped_flusher_returned evs :
  isRunning (run evs started) = false →
  flushData_at (run evs started) = FReturned ∧
  tickRcvr_at (run evs started) = TReturned.
Proof.
  intros Hr. destruct (wg_accounting evs) as [Hwg Hzero]. cbv zeta in Hwg, Hzero.
  specialize (Hzero Hr). rewrite Hzero in Hwg.
  unfold running_goroutines in Hwg.
  destruct (flushData_at (run evs started)), (tickRcvr_at (run evs started));
    simpl in Hwg; try lia; done.
Qed.

(** X8.  [Close] returns only after both goroutines have returned: in every
    state reached from engine start in which the engine is no longer marked
    running, [flushData] and [tickRcvr] have returned and the [WaitGroup] is at
    zero. *)
Theorem Close_waits_for_goroutines (evs : list event) :
  let u := run evs started in
  isRunning u = false →
  flushData_at u = FReturned ∧ tickRcvr_at u = TReturned ∧ wg u = 0.
Proof.
  intros u Hr. destruct (stopped_flusher_returned evs Hr) as [Hf Ht].
  destruct (wg_accounting evs) as [_ Hzero]. split; [done|]. split; [done|].
  by apply Hzero.
Qed.

(** A whole shutdown of an idle engine, and a mutation that comes after it. *)
Lemma Close_waits_for_goroutines_witness :
  let evs := [StepFlushData; StepFlushData;
              StepClose; StepClose; StepClose;
              StepFlushData; StepFlushData; StepFlushData;
              StepTickerQuit; StepClose] in
  flushData_at (run evs started) = FReturned ∧
  tickRcvr_at (run evs started) = TReturned ∧
  wg (run evs started) = 0.
Proof. intros evs. exact (Close_waits_for_goroutines evs eq_refl). Defined.

(** X9.  After [Close] has returned nothing is submitted any more, whatever
    is called: from a state reached from engine start in which the engine is
    no longer marked running, no schedule of mutation calls, ticks and steps
    adds to the device log. *)
Theorem no_submission_after_Close (evs evs' : list event) :
  isRunning (run evs started) = false →
  device (run (evs ++ evs') started) = device (run evs started).
Proof.
  intros Hr. destruct (stopped_flusher_returned evs Hr) as (Hf & _).
  rewrite run_app. by apply returned_for_good.
Qed.

Lemma no_submission_after_Close_witness :
  let evs := [StepFlushData; StepFlushData;
              StepClose; StepClose; StepClose;
              StepFlushData; StepFlushData; StepFlushData;
              StepTickerQuit; StepClose] in
  let evs' := [CallAddLogin "alice" "10.0.0.1" "60"; StepTick; StepFlushData;
               StepFlushData] in
  device (run (evs ++ evs') started) = device (run evs started).
Proof. intros evs evs'. exact (no_submission_after_Close evs evs' eq_refl). Defined.

(** X10.  [Close] can block for ever.  If [Close] raises its wake signal
    while the flusher has passed its poll of the quit channel but is not yet
    inside [Wait], the flusher parks after the signal and nothing wakes it:
    with no change pending, no schedule of ticks and steps lets [Close]
    return or the flusher leave; only a mutation call can still raise the
    signal. *)
Theorem Close_blocks (u : UID) (evs : list event) :
  flushData_at u = FWait →
  Close_at u = CTickerQuit ∨ Close_at u = CWait →
  isRunning u = true →
  cumChanges u = 0%Z →
  wg u = running_goroutines u →
  Forall (λ ev, isCall ev = false) evs →
  let u' := run evs u in
  isRunning u' = true ∧ Close_at u' ≠ CEntry ∧
  flushData_at u' ≠ FReturned ∧ device u' = device u.
Proof.
  intros Hf Hc Hr H0 Hwg Hevs u'.
  enough (∀ evs v,
    Forall (λ ev, isCall ev = false) evs →
    (flushData_at v = FWait ∨
     (flushData_at v = FParked ∧ Cond.waiting (flusher v) = true)) →
    (Close_at v = CTickerQuit ∨ Close_at v = CWait) →
    isRunning v = true → cumChanges v = 0%Z → wg v = running_goroutines v →
    isRunning (run evs v) = true ∧ Close_at (run evs v) ≠ CEntry ∧
    flushData_at (run evs v) ≠ FReturned ∧ device (run evs v) = device v) as Hgen
    by (apply Hgen; auto).
  clear. induction evs as [|ev evs IH]; intros v Hevs Hf Hc Hr H0 Hwg.
  { change (run [] v) with v. split; [done|]. split; [|split; [|done]].
    - destruct Hc as [-> | ->]; done.
    - destruct Hf as [-> | [-> _]]; done. }
  apply Forall_cons in Hevs as [Hev Hevs].
  change (run (ev :: evs) v) with (run evs (exec ev v)).
  assert ((flushData_at (exec ev v) = FWait ∨
           (flushData_at (exec ev v) = FParked ∧
            Cond.waiting (flusher (exec ev v)) = true)) ∧
          (Close_at (exec ev v) = CTickerQuit ∨ Close_at (exec ev v) = CWait) ∧
          isRunning (exec ev v) = true ∧ cumChanges (exec ev v) = 0%Z ∧
          wg (exec ev v) = running_goroutines (exec ev v) ∧
          device (exec ev v) = device v) as (Hf' & Hc' & Hr' & H0' & Hwg' & Hd').
  { unfold running_goroutines in *.
    destruct v as [p m g d [w s] n t fq tq c r fpc tpc cpc]. simpl in *. subst r c.
    destruct ev; try discriminate Hev;
      unfold exec, step, tickRcvr_tick, tickRcvr_quit, flushData, Close; simpl.
    - destruct tpc, t; simpl; done.
    - destruct Hf as [-> | [-> ->]]; destruct tpc, tq; simpl in *;
        repeat split; first [done | lia | auto].
    - destruct Hf as [-> | [-> ->]]; simpl; repeat split; auto.
    - destruct Hf as [-> | [-> ->]]; destruct Hc as [-> | ->]; simpl in *;
        try case_bool_decide; simpl; repeat split; first [done | lia | auto]. }
  destruct (IH _ Hevs Hf' Hc' Hr' H0' Hwg') as (? & ? & ? & Hd). 
  repeat split; [done..|]. by rewrite Hd.
Qed.

Lemma Close_blocks_witness :
  let u := run [StepFlushData; StepClose; StepClose] started in
  let u' := run [StepFlushData; StepClose; StepTick; StepTickerQuit;
                 StepClose; StepFlushData; StepClose] u in
  isRunning u' = true ∧ Close_at u' ≠ CEntry ∧
  flushData_at u' ≠ FReturned ∧ device u' = device u.
Proof.
  intros u u'.
  apply (Close_blocks u); [reflexivity | by left | reflexivity..|].
  repeat constructor.
Defined.

(** X11.  A woken flusher submits an envelope even when there is nothing to
    send: from an empty ledger the flush cycle hands the device an envelope
    with the version and the type and no entry at all. *)
Theorem empty_flush (u : UID) :
  flushData_at u = FParked → Cond.waiting (flusher u) = false →
  ip2uTransactions u = ∅ → groups u = ∅ →
  let u' := run [StepFlushData; StepFlushData] u in
  device u' = device u ++
    [payloadElement.mk (payloadElement.Version (payloadE u))
                       (payloadElement.Type_ (payloadE u)) [] [] []] ∧
  ip2uTransactions u' = ∅ ∧ groups u' = ∅ ∧ cumChanges u' = 0%Z.
Proof.
  intros Hp Hw Hm Hg u'.
  destruct (flush_cycle_fields u Hp Hw) as (Hm' & Hc' & Hg' & Hpay & Hdev).
  fold u' in Hm', Hc', Hg', Hpay, Hdev.
  split; [|split; [done|split; [|done]]].
  - rewrite Hdev, Hpay, drain_payloadE, Hm, Hg.
    unfold prepareEntries, prepareGroups. by rewrite !map_to_list_empty.
  - rewrite Hg'. apply map_eq. intros g.
    rewrite gGarbage_lookup, Hg. by rewrite !lookup_empty.
Qed.

(** [Close] on an idle engine makes the flusher send one such envelope. *)
Lemma empty_flush_witness :
  let u := run [StepFlushData; StepFlushData; StepClose; StepClose] started in
  device (run [StepFlushData; StepFlushData] u)
    = [payloadElement.mk UIDVERSION UIDTYPE [] [] []].
Proof.
  intros u.
  destruct (empty_flush u eq_refl eq_refl eq_refl eq_refl) as (Hd & _).
  exact Hd.
Defined.

(** * Properties of the API connector *)

Section connector.
Import ApiConnector.
Context `{External}.

(** Unfolds the plumbing of a method down to the state it threads. *)
Ltac api_unfold :=
  repeat progress
    (unfold mbind, mret, M_bind, M_ret, reportUninit, comsError, traceResponse,
       trace, index, get, modify, Println, post, panic; simpl).

Lemma index_out_of_range (l : list string) (i : Z) (s : Sys) :
  ¬ (0 ≤ i < Z.of_nat (length l))%Z → index l i s = Panicked s.
Proof.
  intros Hi. unfold index. case_bool_decide as H0; [|done].
  destruct (l !! Z.to_nat i) as [x|] eqn:Hx; [|done].
  apply lookup_lt_Some in Hx. lia.
Qed.

Lemma index_in_range (l : list string) (i : Z) (s : Sys) :
  (0 ≤ i < Z.of_nat (length l))%Z → ∃ x, l !! Z.to_nat i = Some x ∧ index l i s = Ret x s.
Proof.
  intros Hi. unfold index. rewrite bool_decide_eq_true_2 by lia.
  destruct (lookup_lt_is_Some_2 l (Z.to_nat i)) as [x Hx]; [lia|].
  exists x. by rewrite Hx.
Qed.

(** X12.  Without a key nothing goes out: [Uid], [Op], [Config], [Report]
    and [Export] on a connector whose key is empty return the error of
    [reportUninit] and no data, post no request and leave the connector as it
    was, whatever their arguments (an index out of range included). *)
Theorem no_key_no_request (s : Sys) :
  apikey (apiC s) = "" →
  (∀ payload, refused (Uid payload s) s) ∧
  (∀ cmd, refused (Op cmd s) s) ∧
  (∀ action xpathValue elementValue,
     refused (Config action xpathValue elementValue s) s) ∧
  (∀ fuel reportType reportName cmd,
     refused (Report fuel reportType reportName cmd s) s) ∧
  (∀ exportCategory optionalArgs, refused (Export exportCategory optionalArgs s) s).
Proof.
  intros Hk. unfold refused, Uid, Op, Config, Report, Export.
  repeat split; intros; api_unfold; simpl; rewrite Hk; simpl;
    destruct (debugMode (apiC s)); simpl; eauto.
Qed.

(** X13.  With a key, an index outside the table panics before anything is
    logged or posted: [Config] with an action outside 0..4, [Report] with a
    report type outside 0..2 and [Export] with a category outside 0..20,
    whether debugging is on or off. *)
Theorem index_out_of_range_panics (s : Sys) :
  apikey (apiC s) ≠ "" →
  (∀ action xpathValue elementValue,
     ¬ (0 ≤ action < 5)%Z →
     Config action xpathValue elementValue s = Panicked s) ∧
  (∀ fuel reportType reportName cmd,
     ¬ (0 ≤ reportType < 3)%Z →
     Report fuel reportType reportName cmd s = Panicked s) ∧
  (∀ exportCategory optionalArgs,
     ¬ (0 ≤ exportCategory < 21)%Z →
     Export exportCategory optionalArgs s = Panicked s).
Proof.
  intros Hk. unfold Config, Report, Export.
  repeat split; intros; unfold mbind, M_bind, get; simpl;
    rewrite bool_decide_eq_false_2 by done;
    by rewrite index_out_of_range.
Qed.

(** X14.  With a key, [Op], [Uid] and [Config] (its action in range) post
    exactly one request, to the URL of the API, and return.  The error they
    return is the transport's or the parser's: a reply that parses comes back
    without an error whatever status it carries, so a failure reported by the
    device shows in [LastStatus] only.  After a transport error [LastStatus]
    is -1 and [LastStatusCode] is API_COMSERROR while the message is still the
    one of the call before; after a reply that does not parse, status, code
    and message are all still those of the call before. *)
Theorem exchange_outcome (s : Sys) :
  apikey (apiC s) ≠ "" →
  (∀ cmd, one_exchange Unmarshal_genericResp (λ r, XmlResult (XmlData r)) s (Op cmd s)) ∧
  (∀ payload,
     one_exchange Unmarshal_uidResp (λ r, XmlResult (ResultData r)) s (Uid payload s)) ∧
  (∀ action xpathValue elementValue,
     (0 ≤ action < 5)%Z →
     one_exchange Unmarshal_genericResp (λ r, XmlResult (XmlData r)) s
       (Config action xpathValue elementValue s)).
Proof.
  intros Hk. destruct s as [[hn k pv dbg tg vs ls lsc lrm lue] ps lg].
  simpl in Hk. split; [|split].
  - intros cmd. unfold one_exchange, Op. api_unfold.
    rewrite bool_decide_eq_false_2 by done.
    destruct dbg; simpl;
      match goal with |- context [PostForm ?h ?r] =>
        destruct (PostForm h r) as [e|body] eqn:Hpost end; simpl;
      try (destruct (Unmarshal_genericResp body) as [e|r] eqn:Hdec; simpl);
      (eexists; split; [reflexivity|]; split; [reflexivity|]);
      rewrite Hpost, ?Hdec; done.
  - intros payload. unfold one_exchange, Uid. api_unfold.
    rewrite bool_decide_eq_false_2 by done.
    destruct dbg; simpl;
      match goal with |- context [PostForm ?h ?r] =>
        destruct (PostForm h r) as [e|body] eqn:Hpost end; simpl;
      try (destruct (Unmarshal_uidResp body) as [e|r] eqn:Hdec; simpl);
      (eexists; split; [reflexivity|]; split; [reflexivity|]);
      rewrite Hpost, ?Hdec; done.
  - intros action xpathValue elementValue Ha.
    match goal with |- context [Config _ _ _ ?s] =>
      destruct (index_in_range actionArray action s) as (actionName & _ & Hidx);
        [simpl; lia|] end.
    unfold one_exchange, Config. unfold mbind at 1, M_bind at 1, get at 1. simpl.
    rewrite bool_decide_eq_false_2 by done.
    unfold mbind at 1, M_bind at 1. rewrite Hidx. api_unfold.
    destruct dbg; simpl;
      match goal with |- context [PostForm ?h ?r] =>
        destruct (PostForm h r) as [e|body] eqn:Hpost end; simpl;
      try (destruct (Unmarshal_genericResp body) as [e|r] eqn:Hdec; simpl);
      (eexists; split; [reflexivity|]; split; [reflexivity|]);
      rewrite Hpost, ?Hdec; done.
Qed.

Lemma append_assoc (a b c : string) : (a +:+ b) +:+ c = a +:+ (b +:+ c).
Proof.
  induction a as [|x a IH]; [done|].
  change (String x ((a +:+ b) +:+ c) = String x (a +:+ (b +:+ c))). by rewrite IH.
Qed.

Lemma append_nil_r (a : string) : a +:+ "" = a.
Proof.
  induction a as [|x a IH]; [done|].
  change (String x (a +:+ "") = String x a). by rewrite IH.
Qed.

Lemma length_append (a b : string) :
  String.length (a +:+ b) = String.length a + String.length b.
Proof.
  induction a as [|x a IH]; [done|].
  change (S (String.length (a +:+ b)) = S (String.length a + String.length b)).
  by rewrite IH.
Qed.

Lemma normalizeError_lines (acc : string) (lines : list string) :
  foldl (λ norM line, norM +:+ nl +:+ line) acc lines
    = acc +:+ foldr (λ line rest, nl +:+ line +:+ rest) "" lines.
Proof.
  revert acc. induction lines as [|line lines IH]; intros acc; simpl.
  - by rewrite append_nil_r.
  - rewrite IH. by rewrite !append_assoc.
Qed.

(** X15.  [normalizeError] gives the empty message for a reply whose status
    is success, whatever else the reply holds.  Otherwise, when the reply has
    message lines, the message is those lines in order, each one preceded by
    a newline (so it starts with a newline and is as long as the lines and
    one character each), and the result body is not looked at; without
    lines and without a result body the message is empty. *)
Theorem normalizeError_cases (gResp : genericResp) :
  (g_Status gResp = STATUS_OK → normalizeError gResp = "") ∧
  (g_Status gResp ≠ STATUS_OK →
   (∀ lines, MsgNode_Line gResp = Some lines →
      normalizeError gResp = foldr (λ line rest, nl +:+ line +:+ rest) "" lines ∧
      String.length (normalizeError gResp)
        = sum_list ((λ line, S (String.length line)) <$> lines)) ∧
   (MsgNode_Line gResp = None →
      normalizeError gResp = match XmlResult (XmlData gResp) with
                             | Some data => Unmarshal_chardata data
                             | None => ""
                             end)).
Proof.
  unfold normalizeError. split.
  - intros Hs. by rewrite bool_decide_eq_true_2.
  - intros Hs. rewrite bool_decide_eq_false_2 by done. split.
    + intros lines ->. rewrite normalizeError_lines.
      change ("" +:+ ?x) with x. split; [done|].
      induction lines as [|line lines IH]; [done|].
      cbn [foldr fmap list_fmap sum_list sum_list_with].
      rewrite !length_append, IH. reflexivity.
    + by intros ->.
Qed.

(** X16.  [Keygen] returns without an error only with a usable key in
    place: it has then posted two requests (the login and the query for the
    release), the device has answered the login with status success, the key
    stored is the key of that answer and is not empty, and the last status is
    success. *)
Theorem Keygen_ok (username password : string) (s s' : Sys) :
  Keygen username password s = Ret None s' →
  apikey (apiC s') ≠ "" ∧
  LastStatus (apiC s') = STATUS_OK ∧
  ∃ req req' body,
    posted s' = posted s ++ [req; req'] ∧
    req.2 !! "user" = Some [username] ∧ req.2 !! "password" = Some [password] ∧
    PostForm (posted s) req = inr body ∧
    kg_Status (Unmarshal_keygenResp body) = STATUS_OK ∧
    apikey (apiC s') = KeyNode (Unmarshal_keygenResp body).
Proof.
  destruct s as [[hn k pv dbg tg vs ls lsc lrm lue] ps lg].
  unfold Keygen, grabPanosRelease, Op. api_unfold.
  destruct dbg; simpl;
    match goal with |- context [PostForm ?h ?r] =>
      destruct (PostForm h r) as [e|body] eqn:Hpost end; simpl; try discriminate;
    (case_bool_decide as Hst; simpl; [discriminate|]);
    (case_bool_decide as Hkey; simpl; [discriminate|]);
    match goal with |- context [PostForm ?h ?r] =>
      destruct (PostForm h r) as [e'|body'] eqn:Hpost' end; simpl; try discriminate;
    (destruct (Unmarshal_genericResp body') as [e'|r] eqn:Hdec; simpl;
       [discriminate|]);
    (case_bool_decide as Hst'; simpl; [discriminate|]);
    intros [= <-]; simpl;
    (split; [done|]); (split; [by destruct (decide (g_Status r = STATUS_OK))|]);
    eexists (_, _), _, body; simpl;
    (split; [rewrite <- app_assoc; reflexivity|]);
    (split; [reflexivity|]); (split; [reflexivity|]);
    (split; [exact Hpost|]);
    (split; [by destruct (decide (kg_Status (Unmarshal_keygenResp body) = STATUS_OK))
            | reflexivity]).
Qed.



(** *** Forms *)

Lemma Add_lookup (key value : string) (q : Values.t) :
  Values.Add key value q !! key = Some (default [] (q !! key) ++ [value]).
Proof. apply lookup_insert_eq. Qed.

Lemma Add_lookup_ne (key key' value : string) (q : Values.t) :
  key ≠ key' → Values.Add key value q !! key' = q !! key'.
Proof. intros Hne. by apply lookup_insert_ne. Qed.

Lemma addParams_lookup_ne (c : t) (q : Values.t) (key : string) :
  key ≠ "target" → key ≠ "vsys" → addParams c q !! key = q !! key.
Proof.
  intros Ht Hv. unfold addParams.
  repeat case_bool_decide; rewrite ?Add_lookup_ne by congruence; done.
Qed.

Lemma addParams_target (c : t) (q : Values.t) :
  q !! "target" = None →
  addParams c q !! "target" = if bool_decide (target c = "") then None else Some [target c].
Proof.
  intros Hq. unfold addParams.
  destruct (decide (target c = "")) as [Ht|Ht].
  - rewrite (bool_decide_eq_false_2 (target c ≠ "")) by (by intros []).
    rewrite (bool_decide_eq_true_2 (target c = "")) by done.
    case_bool_decide; rewrite ?Add_lookup_ne by done; done.
  - rewrite (bool_decide_eq_true_2 (target c ≠ "")) by done.
    rewrite (bool_decide_eq_false_2 (target c = "")) by done.
    case_bool_decide; rewrite ?Add_lookup_ne by done; by rewrite Add_lookup, Hq.
Qed.

(** X18.  [SetKey] stores the key it is given in every case, also when it
    returns an error.  With the empty key it always fails, and without
    posting anything; when it returns no error the key is not empty, the
    device has been asked once, with that key, and has answered with status
    success. *)
Theorem SetKey_stores (key : string) (s : Sys) :
  ∃ r s',
    SetKey key s = Ret r s' ∧
    apikey (apiC s') = key ∧
    (key = "" → r = Some "Unable to get PANOS release info" ∧ posted s' = posted s) ∧
    (r = None →
     key ≠ "" ∧ LastStatus (apiC s') = STATUS_OK ∧
     ∃ req, posted s' = posted s ++ [req] ∧ req.2 !! "key" = Some [key]).
Proof.
  destruct s as [[hn k pv dbg tg vs ls lsc lrm lue] ps lg].
  unfold SetKey, grabPanosRelease, Op. api_unfold.
  assert (∀ c, addParams c
                 (Values.Add "key" key
                    (Values.Add "cmd" "<show><system><info></info></system></show>"
                       (Values.Set_ "type" _TYPE_OP ∅))) !! "key" = Some [key])
    as Hform by (intros c; by rewrite addParams_lookup_ne).
  destruct dbg; simpl.
  all: case_bool_decide as Hkey; simpl.
  all: try (eexists _, _; split; [reflexivity|]; simpl;
            split; [reflexivity|]; split; [done | done]).
  all: match goal with |- context [PostForm ?h ?r] =>
         destruct (PostForm h r) as [e|body] eqn:Hpost end; simpl.
  all: try (eexists _, _; split; [reflexivity|]; simpl;
            split; [reflexivity|]; split; [done | done]).
  all: destruct (Unmarshal_genericResp body) as [e|r] eqn:Hdec; simpl.
  all: try (eexists _, _; split; [reflexivity|]; simpl;
            split; [reflexivity|]; split; [done | done]).
  all: case_bool_decide as Hst; simpl.
  all: eexists _, _; (split; [reflexivity|]); simpl;
       (split; [reflexivity|]); (split; [done|]); try done.
  all: intros _; (split; [done|]);
       (split; [by destruct (decide (g_Status r = STATUS_OK))|]);
       eexists (_, _); (split; [reflexivity|]); apply Hform.
Qed.

(** *** Polling for a report *)

Lemma replicate_snoc_cons {A} (x : A) (n : nat) :
  replicate n x ++ [x] = x :: replicate n x.
Proof. induction n as [|n IH]; simpl; [done|]. by rewrite IH. Qed.

Lemma loop_finishes (k : nat) :
  ∀ fuel url q r0 r body r' (s : Sys),
    polling (posted s) (url, q) r0 k = Some r →
    PostForm (posted s ++ replicate k (url, q)) (url, q) = inr body →
    Unmarshal_reportJobResp body r = inr r' →
    j_Status (r_Job r') = _statusFin →
    k < fuel →
    ∃ s',
      getReportJob_loop fuel url q r0 s =
        Ret (Some ("<report>" +:+ default "" (XmlResult (r_Report r')) +:+ "</report>"),
             None) s' ∧
      posted s' = posted s ++ replicate (S k) (url, q) ∧
      apiC s' = set_LastUnmarshallError None (apiC s).
Proof.
  induction k as [|k IH]; intros fuel url q r0 r body r' s Hpoll Hpost Hdec Hfin Hfuel;
    (destruct fuel as [|fuel]; [lia|]);
    destruct s as [[hn ky pv dbg tg vs ls lsc lrm lue] ps lg]; simpl in *.
  - injection Hpoll as <-. rewrite app_nil_r in Hpost.
    api_unfold. rewrite Hpost. destruct dbg; simpl; rewrite Hdec; simpl;
      rewrite bool_decide_eq_true_2 by done; eexists; by split.
  - destruct (PostForm ps (url, q)) as [e0|b0] eqn:Hp0; [done|].
    destruct (Unmarshal_reportJobResp b0 r0) as [e1|r1] eqn:Hd0; [done|].
    case_bool_decide as Hf0; [done|].
    api_unfold. rewrite Hp0.
    destruct dbg; simpl; rewrite Hd0; simpl;
      rewrite bool_decide_eq_false_2 by done; simpl.
    all: match goal with
         | Hd : Unmarshal_reportJobResp _ _ = inr ?rr
           |- context [getReportJob_loop ?f ?u ?qq ?rr ?s1] =>
             destruct (IH f u qq rr r body r' s1) as (s' & -> & Hps & Hc);
               [exact Hpoll | simpl; rewrite <- app_assoc; exact Hpost
               | exact Hdec | exact Hfin | lia |];
             exists s'; split; [reflexivity|]; simpl in Hps, Hc; rewrite Hps, Hc;
             split; [rewrite <- app_assoc; reflexivity | reflexivity]
         end.
Qed.

Lemma loop_never_finishes (fuel : nat) :
  ∀ url q r0 (s : Sys),
    (∀ k, is_Some (polling (posted s) (url, q) r0 k)) →
    getReportJob_loop fuel url q r0 s = OutOfFuel.
Proof.
  induction fuel as [|fuel IH]; intros url q r0 s Hall; [done|].
  destruct s as [[hn ky pv dbg tg vs ls lsc lrm lue] ps lg]; simpl in *.
  pose proof (Hall 1) as [r1 H1]. simpl in H1.
  destruct (PostForm ps (url, q)) as [e0|b0] eqn:Hp0; [done|].
  destruct (Unmarshal_reportJobResp b0 r0) as [e1|r1'] eqn:Hd0; [done|].
  case_bool_decide as Hf0; [done|].
  assert (∀ k, is_Some (polling (ps ++ [(url, q)]) (url, q) r1' k)) as Hrest.
  { intros k. specialize (Hall (S k)). simpl in Hall.
    rewrite Hp0, Hd0 in Hall. by rewrite bool_decide_eq_false_2 in Hall. }
  api_unfold. rewrite Hp0.
  destruct dbg; simpl; rewrite Hd0; simpl;
    rewrite bool_decide_eq_false_2 by done; simpl; by apply IH.
Qed.

(** X19.  [getReportJob] polls with one and the same request until the job
    reports the status FIN, and has no other way out short of an error: if
    the first [k] polls are answered and parse without reporting FIN and the
    next one reports FIN, then (with fuel for more than [k] rounds) it
    returns the report of that last answer wrapped in a report element, after
    exactly [k + 1] requests, and the status fields of the connector are those
    of before; if every poll is answered and parses without ever reporting
    FIN, no amount of fuel is enough. *)
Theorem getReportJob_polls (reportType : Z) (jobId action : string) (s : Sys) :
  let req := poll_request (apiC s) jobId action in
  (∀ k r body r',
     polling (posted s) req reportJobResp_zero k = Some r →
     PostForm (posted s ++ replicate k req) req = inr body →
     Unmarshal_reportJobResp body r = inr r' →
     j_Status (r_Job r') = _statusFin →
     ∀ fuel, k < fuel →
       ∃ s',
         getReportJob fuel reportType jobId action s =
           Ret (Some ("<report>" +:+ default "" (XmlResult (r_Report r'))
                        +:+ "</report>"), None) s' ∧
         posted s' = posted s ++ replicate (S k) req ∧
         apiC s' = set_LastUnmarshallError None (apiC s)) ∧
  ((∀ k, is_Some (polling (posted s) req reportJobResp_zero k)) →
   ∀ fuel, getReportJob fuel reportType jobId action s = OutOfFuel).
Proof.
  intros req. split.
  - intros k r body r' Hpoll Hpost Hdec Hfin fuel Hfuel.
    unfold getReportJob.
    destruct s as [[hn ky pv dbg tg vs ls lsc lrm lue] ps lg].
    unfold mbind at 1, M_bind at 1. unfold trace at 1. api_unfold.
    destruct dbg; simpl.
    all: match goal with |- context [getReportJob_loop ?f ?u ?q ?r0 ?s1] =>
           destruct (loop_finishes k f u q r0 r body r' s1)
             as (s' & -> & Hps & Hc); try done;
           exists s'; by rewrite Hps, Hc
         end.
  - intros Hall fuel. unfold getReportJob.
    destruct s as [[hn ky pv dbg tg vs ls lsc lrm lue] ps lg].
    unfold mbind at 1, M_bind at 1. unfold trace at 1. api_unfold.
    destruct dbg; simpl; by apply loop_never_finishes.
Qed.

(** X20.  [Report] drops the error of the polling: once its own request has
    been answered and the answer has parsed, so that polling has begun,
    [Report] returns without an error whatever the polling came to; a failed
    polling shows only in that no data comes back. *)
Theorem Report_drops_polling_error (fuel : nat) (reportType : Z)
    (reportName cmd : string) (s s' : Sys) (data : option string) (err : option error) :
  Report fuel reportType reportName cmd s = Ret (data, err) s' →
  length (posted s) + 2 ≤ length (posted s') →
  err = None ∧
  ∃ req body jResp,
    PostForm (posted s) req = inr body ∧ Unmarshal_asyncResp body = inr jResp ∧
    req.2 !! "reportname" =
      Some [if bool_decide (reportName = "") then "custom-dynamic-report" else reportName].
Proof.
  destruct s as [[hn k pv dbg tg vs ls lsc lrm lue] ps lg].
  unfold Report. unfold mbind at 1, M_bind at 1, get at 1. cbn [apiC apikey].
  case_bool_decide as Hk.
  { api_unfold. destruct dbg; simpl; intros ?; simplify_eq/=; lia. }
  unfold mbind at 1, M_bind at 1.
  destruct (index reportTypeMap reportType _) as [typeName s0| |] eqn:Hidx;
    [|done..].
  assert (s0 = {| apiC := mk hn k pv dbg tg vs ls lsc lrm lue;
                  posted := ps; logged := lg |}) as ->.
  { unfold index in Hidx. case_bool_decide; [|done].
    destruct (reportTypeMap !! Z.to_nat reportType); [|done].
    by injection Hidx as _ <-. }
  unfold getReportJob. api_unfold.
  destruct dbg; simpl.
  all: match goal with |- context [PostForm ?h ?r] =>
         destruct (PostForm h r) as [e|body] eqn:Hpost end; simpl.
  all: try (intros ?; simplify_eq/=; rewrite length_app; simpl; lia).
  all: destruct (Unmarshal_asyncResp body) as [e|jResp] eqn:Hdec; simpl.
  all: try (intros ?; simplify_eq/=; rewrite length_app; simpl; lia).
  all: match goal with |- context [getReportJob_loop ?f ?u ?q ?r0 ?s1] =>
         destruct (getReportJob_loop f u q r0 s1) as [[d e'] s2| |] eqn:Hloop end;
         simpl; try done.
  all: destruct (debugMode (apiC s2)); simpl.
  all: intros ? _; simplify_eq/=; (split; [done|]).
  all: eexists (_, _), body, jResp; (split; [exact Hpost|]); (split; [exact Hdec|]).
  all: cbn [snd]; rewrite addParams_lookup_ne, Add_lookup_ne by done.
  all: case_bool_decide; rewrite ?Add_lookup_ne by done; apply Add_lookup.
Qed.

(** X21.  With debugging on, [Keygen] writes the password to the log in
    clear: whatever the device answers, the first line it logs is the one
    that ends in the password. *)
Theorem Keygen_logs_password (username password : string) (s s' : Sys)
    (r : option error) :
  debugMode (apiC s) = true →
  Keygen username password s = Ret r s' →
  ∃ rest,
    logged s' = logged s ++
      ("ApiConnector.Keygen: called with user = " +:+ username
         +:+ " and password = " +:+ password) :: rest.
Proof.
  destruct s as [[hn k pv dbg tg vs ls lsc lrm lue] ps lg]. simpl. intros ->.
  unfold Keygen, grabPanosRelease, Op. api_unfold.
  match goal with |- context [PostForm ?h ?r] =>
    destruct (PostForm h r) as [e|body] eqn:Hpost end; simpl.
  all: try (intros ?; simplify_eq/=; eexists; rewrite <- ?app_assoc; reflexivity).
  all: case_bool_decide as Hst; simpl.
  all: try (intros ?; simplify_eq/=; eexists; rewrite <- ?app_assoc; reflexivity).
  all: case_bool_decide as Hkey; simpl.
  all: try (intros ?; simplify_eq/=; eexists; rewrite <- ?app_assoc; reflexivity).
  all: match goal with |- context [PostForm ?h ?r] =>
         destruct (PostForm h r) as [e'|body'] eqn:Hpost' end; simpl.
  all: try (intros ?; simplify_eq/=; eexists; rewrite <- ?app_assoc; reflexivity).
  all: destruct (Unmarshal_genericResp body') as [e'|r'] eqn:Hdec; simpl.
  all: try (intros ?; simplify_eq/=; eexists; rewrite <- ?app_assoc; reflexivity).
  all: case_bool_decide; simpl.
  all: intros ?; simplify_eq/=; eexists; rewrite <- ?app_assoc; reflexivity.
Qed.

(** *** The engine's envelopes on the wire *)

Lemma Uid_posts (payload : string) (s : Sys) :
  apikey (apiC s) ≠ "" →
  ∃ a s' q,
    Uid payload s = Ret a s' ∧
    posted s' = posted s ++ [(apiURL (apiC s), q)] ∧
    q !! "cmd" = Some [payload] ∧ q !! "key" = Some [apikey (apiC s)] ∧
    q !! "type" = Some [_TYPE_UID] ∧ q !! "action" = Some [_ACTION_SET] ∧
    q !! "target" = (if bool_decide (target (apiC s) = "") then None
                     else Some [target (apiC s)]) ∧
    hostname (apiC s') = hostname (apiC s) ∧ apikey (apiC s') = apikey (apiC s) ∧
    target (apiC s') = target (apiC s) ∧ vsys (apiC s') = vsys (apiC s).
Proof.
  intros Hk. destruct s as [[hn k pv dbg tg vs ls lsc lrm lue] ps lg].
  simpl in Hk. unfold Uid. api_unfold. rewrite bool_decide_eq_false_2 by done.
  destruct dbg; simpl.
  all: match goal with |- context [PostForm ?h ?r] =>
         destruct (PostForm h r) as [e|body] eqn:Hpost end; simpl.
  all: try (destruct (Unmarshal_uidResp body) as [e|r] eqn:Hdec; simpl).
  all: eexists _, _, _; (split; [reflexivity|]); simpl; (split; [reflexivity|]).
  all: rewrite !addParams_lookup_ne by done.
  all: rewrite addParams_target by done.
  all: repeat split; done.
Qed.

(** A [Keygen] that returns no error leaves a key in place, and the host
    name as it was. *)
Lemma Keygen_done (username password : string) (s s' : Sys) :
  Keygen username password s = Ret None s' →
  apikey (apiC s') ≠ "" ∧ hostname (apiC s') = hostname (apiC s).
Proof.
  destruct s as [[hn k pv dbg tg vs ls lsc lrm lue] ps lg].
  unfold Keygen, grabPanosRelease, Op. api_unfold.
  destruct dbg; simpl.
  all: match goal with |- context [PostForm ?h ?r] =>
         destruct (PostForm h r) as [e|body] eqn:Hpost end; simpl; try done.
  all: case_bool_decide as Hst; simpl; try done.
  all: case_bool_decide as Hkey; simpl; try done.
  all: match goal with |- context [PostForm ?h ?r] =>
         destruct (PostForm h r) as [e'|body'] eqn:Hpost' end; simpl; try done.
  all: destruct (Unmarshal_genericResp body') as [e'|r'] eqn:Hdec; simpl; try done.
  all: case_bool_decide; simpl; try done.
  all: intros [= <-]; simpl; by split.
Qed.

(** X22.  Every envelope that the engine hands to a connector holding a key
    goes out on the wire: delivering a list of envelopes returns, and posts
    one request per envelope, in order, each to the URL of the API with the
    marshalled envelope as its command, the key, type user-id and action
    set.  That is the case after every successful start of the engine:
    [uid.Init] starts the engine only with a key in place. *)
Theorem envelopes_on_the_wire (xml_Marshal : payloadElement.t → string)
    (envelopes : list payloadElement.t) (s : Sys) :
  (apikey (apiC s) ≠ "" →
   ∃ s' reqs,
     deliver xml_Marshal envelopes s = Ret () s' ∧
     posted s' = posted s ++ reqs ∧
     Forall2 (λ (req : request) envelope,
                req.1 = apiURL (apiC s) ∧
                req.2 !! "cmd" = Some [xml_Marshal envelope] ∧
                req.2 !! "key" = Some [apikey (apiC s)] ∧
                req.2 !! "type" = Some [_TYPE_UID] ∧
                req.2 !! "action" = Some [_ACTION_SET])
             reqs envelopes) ∧
  (∀ dev user passwd u s',
     InitDevice dev user passwd s = Ret (inr u) s' →
     u = started ∧ apikey (apiC s') ≠ "" ∧ hostname (apiC s') = dev).
Proof.
  split.
  - revert s. induction envelopes as [|envelope envelopes IH]; intros s Hk.
    + exists s, []. split; [done|]. split; [by rewrite app_nil_r | constructor].
    + destruct (Uid_posts (xml_Marshal envelope) s Hk)
        as (a & s1 & q & Huid & Hps & Hcmd & Hkey & Hty & Hact & _ & Hhn & Hk1 & _).
      destruct (IH s1) as (s' & reqs & Hdel & Hps' & Hall); [by rewrite Hk1|].
      exists s', ((apiURL (apiC s), q) :: reqs).
      split; [|split].
      * simpl. unfold mbind, M_bind. by rewrite Huid.
      * rewrite Hps', Hps. by rewrite <- app_assoc.
      * constructor; [done|].
        assert (apiURL (apiC s1) = apiURL (apiC s)) as Hurl
          by (unfold apiURL; by rewrite Hhn).
        rewrite Hurl, Hk1 in Hall. exact Hall.
  - intros dev user passwd u s'. unfold InitDevice.
    unfold mbind at 1, M_bind at 1.
    destruct (ApiConnector.Init dev s) as [[] s0| |] eqn:Hinit; [|done..].
    assert (hostname (apiC s0) = dev) as Hhn0.
    { revert Hinit. unfold ApiConnector.Init. api_unfold.
      destruct (debugMode (apiC s)); simpl; by intros [= <-]. }
    unfold mbind at 1, M_bind at 1.
    destruct (Keygen user passwd s0) as [[err|] s1| |] eqn:Hkg; try done.
    destruct (Keygen_done user passwd s0 s1 Hkg) as [Hkey Hhn].
    unfold mret, M_ret. intros [= <- <-]. split; [done|]. split; [done|].
    by rewrite Hhn.
Qed.

(** X23.  [Export] does not address a target device or virtual system: the
    form it posts holds the type, the category and the key and, beyond these,
    only what the optional arguments name, so a target or vsys set on the
    connector is sent by [Op] and left out by [Export]. *)
Theorem Export_ignores_target (exportCategory : Z)
    (optionalArgs : list (string * string)) (s : Sys) :
  apikey (apiC s) ≠ "" → (0 ≤ exportCategory < 21)%Z →
  (∃ r s' q,
     Export exportCategory optionalArgs s = Ret r s' ∧
     posted s' = posted s ++ [(apiURL (apiC s), q)] ∧
     ∀ key, key ∉ optionalArgs.*1 →
            key ≠ "type" → key ≠ "category" → key ≠ "key" → q !! key = None) ∧
  (∀ cmd, ∃ r s' q,
     Op cmd s = Ret r s' ∧
     posted s' = posted s ++ [(apiURL (apiC s), q)] ∧
     q !! "target" = (if bool_decide (target (apiC s) = "") then None
                      else Some [target (apiC s)])).
Proof.
  intros Hk Hc. split.
  - destruct (index_in_range exportCategoryMap exportCategory s) as (category & _ & Hidx);
      [simpl; lia|].
    assert (∀ (args : list (string * string)) (q : Values.t) key,
              key ∉ args.*1 →
              foldl (λ q v, Values.Add v.1 v.2 q) q args !! key = q !! key) as Hfold.
    { clear. induction args as [|[a v] args IH]; intros q key Hnin; [done|].
      simpl in *. apply not_elem_of_cons in Hnin as [Hne Hnin].
      rewrite IH by done. by apply Add_lookup_ne. }
    unfold Export. unfold mbind at 1, M_bind at 1, get at 1. simpl.
    rewrite bool_decide_eq_false_2 by done.
    unfold mbind at 1, M_bind at 1. rewrite Hidx.
    destruct s as [[hn k pv dbg tg vs ls lsc lrm lue] ps lg]. api_unfold.
    destruct dbg; simpl.
    all: match goal with |- context [PostForm ?h ?r] =>
           destruct (PostForm h r) as [e|body] eqn:Hpost end; simpl.
    all: eexists _, _, _; (split; [reflexivity|]); simpl; (split; [reflexivity|]).
    all: intros key Hnin Ht Hcat Hkey; rewrite Hfold by done.
    all: rewrite !Add_lookup_ne by congruence; unfold Values.Set_.
    all: rewrite lookup_insert_ne by congruence; apply lookup_empty.
  - intros cmd. destruct s as [[hn k pv dbg tg vs ls lsc lrm lue] ps lg].
    simpl in Hk. unfold Op. api_unfold. rewrite bool_decide_eq_false_2 by done.
    destruct dbg; simpl.
    all: match goal with |- context [PostForm ?h ?r] =>
           destruct (PostForm h r) as [e|body] eqn:Hpost end; simpl.
    all: try (destruct (Unmarshal_genericResp body) as [e|r] eqn:Hdec; simpl).
    all: eexists _, _, _; (split; [reflexivity|]); simpl; (split; [reflexivity|]).
    all: by rewrite addParams_target.
Qed.

(** *** Logging *)

Lemma loop_quiet (fuel : nat) :
  ∀ url q r0 (s : Sys),
    debugMode (apiC s) = false → quiet s (getReportJob_loop fuel url q r0 s).
Proof.
  induction fuel as [|fuel IH]; intros url q r0 s Hdbg; [done|].
  destruct s as [[hn k pv dbg tg vs ls lsc lrm lue] ps lg]. simpl in Hdbg. subst dbg.
  simpl. api_unfold.
  match goal with |- context [PostForm ?h ?r] =>
    destruct (PostForm h r) as [e|body] eqn:Hpost end; simpl; [done|].
  match goal with |- context [Unmarshal_reportJobResp ?b ?r] =>
    destruct (Unmarshal_reportJobResp b r) as [e|r1] eqn:Hdec end; simpl; [done|].
  case_bool_decide; simpl; [done|].
  match goal with |- context [getReportJob_loop fuel url q r1 ?s1] =>
    specialize (IH url q r1 s1 eq_refl);
    destruct (getReportJob_loop fuel url q r1 s1) as [a s2|s2|] end; exact IH.
Qed.

(** X24.  With debugging off the connector writes nothing to the log: no
    method adds a line, whether it returns an error, returns data or panics,
    and none switches debugging on. *)
Theorem silent_without_debug (s : Sys) :
  debugMode (apiC s) = false →
  (∀ Hname, quiet s (Init Hname s)) ∧
  (∀ serial, quiet s (SetTarget serial s)) ∧
  (∀ vsys, quiet s (SetVys vsys s)) ∧
  (∀ username password, quiet s (Keygen username password s)) ∧
  (∀ key, quiet s (SetKey key s)) ∧
  (∀ cmd, quiet s (Op cmd s)) ∧
  (∀ payload, quiet s (Uid payload s)) ∧
  (∀ action xpathValue elementValue, quiet s (Config action xpathValue elementValue s)) ∧
  (∀ fuel reportType reportName cmd, quiet s (Report fuel reportType reportName cmd s)) ∧
  (∀ exportCategory optionalArgs, quiet s (Export exportCategory optionalArgs s)).
Proof.
  destruct s as [[hn k pv dbg tg vs ls lsc lrm lue] ps lg]. simpl. intros ->.
  split; [|split; [|split; [|split; [|split; [|split; [|split; [|split; [|split]]]]]]]].
  all: intros; unfold quiet, Init, SetTarget, SetVys, Keygen, SetKey, Report,
         getReportJob, Config, Uid, Export, grabPanosRelease, Op; api_unfold.
  all: repeat first
    [ done
    | case_bool_decide; simpl
    | match goal with |- context [PostForm ?h ?r] =>
        destruct (PostForm h r) as [?|?]; simpl end
    | match goal with |- context [Unmarshal_genericResp ?b] =>
        destruct (Unmarshal_genericResp b) as [?|?]; simpl end
    | match goal with |- context [Unmarshal_uidResp ?b] =>
        destruct (Unmarshal_uidResp b) as [?|?]; simpl end
    | match goal with |- context [Unmarshal_asyncResp ?b] =>
        destruct (Unmarshal_asyncResp b) as [?|?]; simpl end
    | match goal with |- context [?l !! Z.to_nat ?i] =>
        destruct (l !! Z.to_nat i) as [?|]; simpl end
    | match goal with |- context [getReportJob_loop ?f ?u ?q ?r ?s1] =>
        let Hq := fresh "Hq" in
        let Hd := fresh "Hd" in
        pose proof (loop_quiet f u q r s1 eq_refl) as Hq;
        destruct (getReportJob_loop f u q r s1) as [[? ?] ?|?|];
        simpl in Hq |- *; [destruct Hq as [Hq Hd]; rewrite Hd; simpl | |] end ].
Qed.

(** *** Addressing a device behind Panorama *)

Lemma addParams_vsys (c : t) (q : Values.t) :
  q !! "vsys" = None →
  addParams c q !! "vsys" = if bool_decide (vsys c = "") then None else Some [vsys c].
Proof.
  intros Hq. unfold addParams.
  assert ((if bool_decide (target c ≠ "") then Values.Add "target" (target c) q else q)
            !! "vsys" = None) as Hq'.
  { case_bool_decide; rewrite ?Add_lookup_ne by done; done. }
  destruct (decide (vsys c = "")) as [Hv|Hv].
  - rewrite (bool_decide_eq_false_2 (vsys c ≠ "")) by (by intros []).
    by rewrite (bool_decide_eq_true_2 (vsys c = "")) by done.
  - rewrite (bool_decide_eq_true_2 (vsys c ≠ "")) by done.
    rewrite (bool_decide_eq_false_2 (vsys c = "")) by done.
    by rewrite Add_lookup, Hq'.
Qed.

(** X25.  [SetTarget] and [SetVys] decide what the calls after them send:
    the next [Uid] and the next [Op] carry the serial and the virtual system
    just set, each as the only value of its field, whatever was set before;
    setting the empty string takes the field out of the request again. *)
Theorem SetTarget_SetVys_sent (serial v : string) (s : Sys) :
  apikey (apiC s) ≠ "" →
  let addressed (q : Values.t) :=
    q !! "target" = (if bool_decide (serial = "") then None else Some [serial]) ∧
    q !! "vsys" = (if bool_decide (v = "") then None else Some [v]) in
  (∀ payload, ∃ r s' q,
     (SetTarget serial;; SetVys v;; Uid payload) s = Ret r s' ∧
     posted s' = posted s ++ [(apiURL (apiC s), q)] ∧
     addressed q ∧ q !! "cmd" = Some [payload]) ∧
  (∀ cmd, ∃ r s' q,
     (SetVys v;; SetTarget serial;; Op cmd) s = Ret r s' ∧
     posted s' = posted s ++ [(apiURL (apiC s), q)] ∧
     addressed q ∧ q !! "cmd" = Some [cmd]).
Proof.
  destruct s as [[hn k pv dbg tg vs ls lsc lrm lue] ps lg]. simpl. intros Hk.
  split; intros x; unfold SetTarget, SetVys, Uid, Op; api_unfold;
    destruct dbg; simpl; rewrite bool_decide_eq_false_2 by done; simpl.
  all: match goal with |- context [PostForm ?h ?r] =>
         destruct (PostForm h r) as [e|body] end; simpl.
  all: try match goal with |- context [Unmarshal_uidResp ?b] =>
         destruct (Unmarshal_uidResp b) as [e|r] end; simpl.
  all: try match goal with |- context [Unmarshal_genericResp ?b] =>
         destruct (Unmarshal_genericResp b) as [e|r] end; simpl.
  all: eexists _, _, _; (split; [reflexivity|]); simpl; (split; [reflexivity|]).
  all: rewrite addParams_target, addParams_vsys, addParams_lookup_ne by done; simpl.
  all: rewrite ?Add_lookup_ne by done; by rewrite Add_lookup.
Qed.

End connector.

Lemma index_out_of_range_panics_witness :
  ApiConnector.Config (H := lab 10) 5 "/config" "" keyed = ApiConnector.Panicked keyed ∧
  ApiConnector.Export (H := lab 10) (-1) [] keyed = ApiConnector.Panicked keyed.
Proof.
  destruct (index_out_of_range_panics (H := lab 10) keyed) as (Hcfg & _ & Hexp).
  { discriminate. }
  split; [apply Hcfg | apply Hexp]; lia.
Defined.

Lemma exchange_outcome_witness :
  one_exchange (H := lab 10) (@ApiConnector.Unmarshal_uidResp (lab 10))
    (λ r, ApiConnector.XmlResult (ApiConnector.ResultData r)) keyed
    (ApiConnector.Uid (H := lab 10) "<uid-message/>" keyed) ∧
  one_exchange (H := lab 0) (@ApiConnector.Unmarshal_genericResp (lab 0))
    (λ r, ApiConnector.XmlResult (ApiConnector.XmlData r)) keyed
    (ApiConnector.Config (H := lab 0) 2 "/config" "<x/>" keyed).
Proof.
  destruct (exchange_outcome (H := lab 10) keyed) as (_ & Huid & _); [discriminate|].
  destruct (exchange_outcome (H := lab 0) keyed) as (_ & _ & Hcfg); [discriminate|].
  split; [apply Huid | apply Hcfg; lia].
Defined.

Lemma no_key_no_request_witness :
  refused (ApiConnector.Uid (H := lab 10) "<uid-message/>" fresh) fresh ∧
  refused (ApiConnector.Config (H := lab 10) 7 "/config" "" fresh) fresh.
Proof.
  destruct (no_key_no_request (H := lab 10) fresh eq_refl) as (Huid & _ & Hcfg & _).
  split; [apply Huid | apply Hcfg].
Defined.

Lemma Keygen_ok_witness :
  ∃ s', ApiConnector.Keygen (H := lab 10) "admin" "secret" fresh
          = ApiConnector.Ret None s' ∧
        ApiConnector.apikey (ApiConnector.apiC s') = "KEY".
Proof.
  assert (∃ s', ApiConnector.Keygen (H := lab 10) "admin" "secret" fresh
                  = ApiConnector.Ret None s') as [s' Hs']
    by (eexists; cbv -[Values.Add Values.Set_]; reflexivity).
  destruct (Keygen_ok (H := lab 10) _ _ _ _ Hs')
    as (_ & _ & _ & _ & body & _ & _ & _ & _ & _ & Hkey).
  exists s'. split; [exact Hs' | exact Hkey].
Defined.

(** A device that answers the login and then goes away: [Keygen] fails, and
    the key is the new one. *)
Example Keygen_fails_with_new_key :
  ∃ s', ApiConnector.Keygen (H := lab 1) "admin" "secret" fresh
          = ApiConnector.Ret (Some "Unable to get PANOS release info") s' ∧
        ApiConnector.apikey (ApiConnector.apiC s') = "KEY".
Proof. eexists. split; cbv -[Values.Add Values.Set_]; reflexivity. Qed.

Lemma getReportJob_polls_witness :
  ∃ s', ApiConnector.getReportJob (H := lab 10) 5 0 "7" "get" keyed
          = ApiConnector.Ret (Some "<report><entry/></report>", None) s' ∧
        length (ApiConnector.posted s') = 4.
Proof.
  destruct (getReportJob_polls (H := lab 10) 0 "7" "get" keyed) as [Hfin _].
  destruct (Hfin 3 _ "FIN" _ eq_refl eq_refl eq_refl eq_refl 5) as (s' & Hs' & Hps & _);
    [lia|].
  exists s'. split; [exact Hs'|]. rewrite Hps. reflexivity.
Defined.

(** The device answers the request for the report and then goes away:
    [Report] returns neither data nor an error. *)
Lemma Report_drops_polling_error_witness :
  ∃ s', ApiConnector.Report (H := lab 1) 5 0 "" "" keyed
          = ApiConnector.Ret (None, None) s' ∧
        ∃ req, req.2 !! "reportname" = Some ["custom-dynamic-report"] ∧
               ApiConnector.PostForm (External := lab 1) [] req = inr "ACT".
Proof.
  assert (∃ s', ApiConnector.Report (H := lab 1) 5 0 "" "" keyed
                  = ApiConnector.Ret (None, None) s' ∧
                length (ApiConnector.posted keyed) + 2 ≤ length (ApiConnector.posted s'))
    as (s' & Hs' & Hlen) by (eexists; split; [cbv -[Values.Add Values.Set_]; reflexivity | simpl; lia]).
  destruct (Report_drops_polling_error (H := lab 1) _ _ _ _ _ _ _ _ Hs' Hlen)
    as (_ & req & body & jResp & Hpost & _ & Hname).
  exists s'. split; [exact Hs'|]. exists req. split; [exact Hname|].
  reflexivity.
Defined.

Lemma Keygen_logs_password_witness :
  ∃ r s' rest,
    ApiConnector.Keygen (H := lab 0) "admin" "secret" verbose = ApiConnector.Ret r s' ∧
    ApiConnector.logged s' =
      "ApiConnector.Keygen: called with user = admin and password = secret" :: rest.
Proof.
  assert (∃ r s', ApiConnector.Keygen (H := lab 0) "admin" "secret" verbose
                    = ApiConnector.Ret r s') as (r & s' & Hs')
    by (eexists _, _; cbv -[Values.Add Values.Set_]; reflexivity).
  destruct (Keygen_logs_password (H := lab 0) _ _ verbose _ _ eq_refl Hs') as [rest Hrest].
  exists r, s', rest. split; [exact Hs' | exact Hrest].
Defined.

Lemma Export_ignores_target_witness :
  ∃ r s' q,
    ApiConnector.Export (H := lab 10) 15 [("include", "yes")] keyed
      = ApiConnector.Ret r s' ∧
    ApiConnector.posted s' = [(apiURL (ApiConnector.apiC keyed), q)] ∧
    q !! "target" = None.
Proof.
  destruct (Export_ignores_target (H := lab 10) 15 [("include", "yes")] keyed)
    as [(r & s' & q & Hs' & Hps & Hq) _]; [discriminate | lia |].
  exists r, s', q. split; [exact Hs'|]. split; [exact Hps|].
  apply Hq; [|discriminate..].
  intros Hin. simpl in Hin. inversion Hin as [|? ? ? Hin']. inversion Hin'.
Defined.

(** Two envelopes of a started engine, delivered through a connector that
    holds a key. *)
Lemma envelopes_on_the_wire_witness :
  ∃ s', deliver (H := lab 10) (λ _, "<uid-message/>")
          [payloadE started; payloadE started] keyed = ApiConnector.Ret () s' ∧
        length (ApiConnector.posted s') = 2.
Proof.
  destruct (envelopes_on_the_wire (H := lab 10) (λ _, "<uid-message/>")
              [payloadE started; payloadE started] keyed) as [Hdel _].
  destruct Hdel as (s' & reqs & Hs' & Hps & Hall); [discriminate|].
  exists s'. split; [exact Hs'|].
  rewrite Hps. apply Forall2_length in Hall.
  change (ApiConnector.posted keyed) with (@nil ApiConnector.request).
  rewrite app_nil_l. exact Hall.
Defined.

Lemma silent_without_debug_witness :
  quiet keyed (ApiConnector.Op (H := lab 10) "<show><clock/></show>" keyed) ∧
  quiet keyed (ApiConnector.Config (H := lab 10) 9 "/config" "" keyed) ∧
  quiet fresh (ApiConnector.Keygen (H := lab 1) "admin" "secret" fresh).
Proof.
  destruct (silent_without_debug (H := lab 10) keyed eq_refl)
    as (_ & _ & _ & _ & _ & Hop & _ & Hcfg & _).
  destruct (silent_without_debug (H := lab 1) fresh eq_refl)
    as (_ & _ & _ & Hkg & _).
  split; [apply Hop | split; [apply Hcfg | apply Hkg]].
Defined.

(** A connector behind Panorama: the serial set last is the one sent. *)
Lemma SetTarget_SetVys_sent_witness :
  ∃ r s' q,
    (ApiConnector.SetTarget "0001A1";; ApiConnector.SetVys "";;
     ApiConnector.Uid (H := lab 10) "<uid-message/>") keyed = ApiConnector.Ret r s' ∧
    ApiConnector.posted s' = [(apiURL (ApiConnector.apiC keyed), q)] ∧
    q !! "target" = Some ["0001A1"] ∧ q !! "vsys" = None.
Proof.
  destruct (SetTarget_SetVys_sent (H := lab 10) "0001A1" "" keyed) as [Huid _];
    [discriminate|].
  destruct (Huid "<uid-message/>") as (r & s' & q & Hs' & Hps & [Ht Hv] & _).
  exists r, s', q. split; [exact Hs'|]. split; [exact Hps|].
  split; [exact Ht | exact Hv].
Defined.
